(** * Document extractor: content extraction, legal references, related documents

    A shallow embedding of the document-extractor module (stripHtml,
    extractMainContent, extractPdfText, isPdfUrl, fetchViaBackend,
    fetchDocumentContent, extractCelexId, extractLegalReferences,
    findRelatedDocuments, buildRelatedDocumentsContext) and the properties
    of it that the specification states.

    Conventions of the embedding:
    - a JavaScript string is a list of code units; the code units are those
      below 256 ([ascii]), which covers every literal of the module;
    - a JavaScript integer is a [Z];
    - [undefined] / [null] fields are [option]s, and truthiness is written out;
    - a regular expression is a syntax tree run by a backtracking matcher with
      JavaScript's priorities (leftmost start, alternatives left to right,
      greedy or lazy quantifiers);
    - the network, the PDF reader and the HTML parser are inputs: a call is
      run against a description of what each of them answers;
    - an exception is a value: functions that can throw return [Outcome]. *)

From Stdlib Require Import String Ascii.
From Stdlib Require Import List ZArith Lia Bool Arith Permutation Sorted.
Import Corelib.Init.Datatypes List ListNotations.

Set Warnings "-register-all".

(* ================================================================== *)
(** ** JavaScript strings *)
(* ================================================================== *)

Module JsString.

Definition str := list ascii.

(** A string literal of the source. *)
Definition lit (s : String.string) : str := String.list_ascii_of_string s.
Arguments lit s%_string.

Definition code (a : ascii) : nat := nat_of_ascii a.

Definition chr (n : nat) : ascii := ascii_of_nat n.

Definition str_eqb (a b : str) : bool :=
  if list_eq_dec ascii_dec a b then true else false.

Definition in_range (lo hi : nat) (a : ascii) : bool :=
  (lo <=? code a) && (code a <=? hi).

(** ASCII letters and digits. *)
Definition isUpperAscii (a : ascii) : bool := in_range 65 90 a.
Definition isLowerAscii (a : ascii) : bool := in_range 97 122 a.
Definition isDigit (a : ascii) : bool := in_range 48 57 a.

(** Upper-case letters of the first 256 code points: A-Z and the Latin-1
    capitals (192..222 without the multiplication sign 215). *)
Definition isUpper (a : ascii) : bool :=
  isUpperAscii a || (in_range 192 222 a && negb (code a =? 215)).

(** [String.prototype.toLowerCase], one code unit at a time. *)
Definition lowerChar (a : ascii) : ascii :=
  if isUpper a then chr (code a + 32) else a.

Definition toLowerCase (s : str) : str := map lowerChar s.

(** Case folding of [/i] on the ASCII letters (the patterns of the module
    hold ASCII letters only, and no code unit from 128 on folds to one). *)
Definition upperAscii (a : ascii) : ascii :=
  if isLowerAscii a then chr (code a - 32) else a.
Definition lowerAscii (a : ascii) : ascii :=
  if isUpperAscii a then chr (code a + 32) else a.

(** White space: what [\s] and [trim] recognise below 256. *)
Definition isSpace (a : ascii) : bool :=
  in_range 9 13 a || (code a =? 32) || (code a =? 160).

Definition len (s : str) : Z := Z.of_nat (length s).

(** [s.slice(start, end)] with JavaScript's treatment of negative and
    out-of-range indices. *)
Definition clampIndex (n : Z) (i : Z) : Z :=
  if (i <? 0)%Z then Z.max (n + i) 0 else Z.min i n.

Definition slice {A} (l : list A) (from to : Z) : list A :=
  let n := Z.of_nat (length l) in
  let a := clampIndex n from in
  let b := clampIndex n to in
  firstn (Z.to_nat (b - a)) (skipn (Z.to_nat a) l).

(** [s.startsWith(p)] *)
Fixpoint startsWith (s p : str) {struct p} : bool :=
  match p, s with
  | [], _ => true
  | _ :: _, [] => false
  | y :: p', x :: s' => if ascii_dec x y then startsWith s' p' else false
  end.

(** [s.includes(p)] *)
Fixpoint includes (s p : str) : bool :=
  startsWith s p ||
  match s with
  | [] => false
  | _ :: s' => includes s' p
  end.

Definition endsWith (s p : str) : bool := startsWith (rev s) (rev p).

Fixpoint dropSpaces (s : str) : str :=
  match s with
  | x :: s' => if isSpace x then dropSpaces s' else s
  | [] => []
  end.

(** [s.trim()] *)
Definition trim (s : str) : str := rev (dropSpaces (rev (dropSpaces s))).

(** [parts.join(sep)] *)
Fixpoint join (sep : str) (parts : list str) : str :=
  match parts with
  | [] => []
  | [p] => p
  | p :: ps => p ++ sep ++ join sep ps
  end.

(** [s.repeat(n)] *)
Fixpoint repeatStr (s : str) (n : nat) : str :=
  match n with
  | O => []
  | S n' => s ++ repeatStr s n'
  end.

(** [s.split(/\s+/)]: the pieces between maximal runs of white space; a
    string that starts or ends with white space yields an empty first or
    last piece. *)
Fixpoint splitSpacesAux (s : str) (cur : str) (inSpace : bool) : list str :=
  match s with
  | [] => [rev cur]
  | x :: s' =>
      if isSpace x
      then (if inSpace then splitSpacesAux s' cur true
            else rev cur :: splitSpacesAux s' [] true)
      else splitSpacesAux s' (x :: cur) false
  end.

Definition splitSpaces (s : str) : list str := splitSpacesAux s [] false.

(** Decimal rendering of a non-negative integer (template literals). *)
Fixpoint digitsAux (fuel n : nat) (acc : str) : str :=
  match fuel with
  | O => acc
  | S f =>
      let d := chr (48 + n mod 10) in
      if n <? 10 then d :: acc else digitsAux f (n / 10) (d :: acc)
  end.

Definition natToString (n : nat) : str := digitsAux (S n) n [].

Definition zToString (z : Z) : str :=
  if (z <? 0)%Z then lit "-" ++ natToString (Z.to_nat (- z))
  else natToString (Z.to_nat z).

End JsString.

Import JsString.

(* ================================================================== *)
(** ** Regular expressions *)
(* ================================================================== *)

Module Regex.

(** The constructs the module's patterns use. [Star true] is the greedy
    [*], [Star false] the lazy [*?]; [Group] is a capturing group. *)
Inductive re : Type :=
  | Eps : re
  | Cls : (ascii -> bool) -> re
  | Seq : re -> re -> re
  | Alt : re -> re -> re
  | Star : bool -> re -> re
  | Group : nat -> re -> re.

Definition caps := list (nat * str).

Fixpoint capture (i : nat) (c : caps) : option str :=
  match c with
  | [] => None
  | (j, v) :: c' => if Nat.eqb i j then Some v else capture i c'
  end.

(** A class against a code unit; with [/i] a code unit also matches when
    one of its case variants is in the class. *)
Definition clsMatch (ci : bool) (p : ascii -> bool) (x : ascii) : bool :=
  p x || (ci && (p (upperAscii x) || p (lowerAscii x))).

(** The matcher in continuation-passing style: [run ci r k s c] matches [r]
    at the head of [s] and hands the rest of the input and the captures to
    [k]; when [k] fails the matcher backtracks into [r]. An iteration of a
    quantifier that consumes nothing is rejected, as in ECMAScript. *)
Fixpoint run {A} (ci : bool) (r : re) (k : str -> caps -> option A)
         (s : str) (c : caps) {struct r} : option A :=
  match r with
  | Eps => k s c
  | Cls p =>
      match s with
      | x :: s' => if clsMatch ci p x then k s' c else None
      | [] => None
      end
  | Seq r1 r2 => run ci r1 (fun s' c' => run ci r2 k s' c') s c
  | Alt r1 r2 =>
      match run ci r1 k s c with
      | Some x => Some x
      | None => run ci r2 k s c
      end
  | Star greedy r1 =>
      (fix loop (n : nat) (s : str) (c : caps) {struct n} : option A :=
         let again :=
           match n with
           | O => None
           | S n' =>
               run ci r1
                 (fun s' c' =>
                    if length s' <? length s then loop n' s' c' else None)
                 s c
           end in
         if greedy
         then match again with Some x => Some x | None => k s c end
         else match k s c with Some x => Some x | None => again end)
        (length s) s c
  | Group i r1 =>
      run ci r1
        (fun s' c' => k s' ((i, firstn (length s - length s') s) :: c'))
        s c
  end.

(** Derived forms. *)
Definition Chr (a : ascii) : re := Cls (fun x => if ascii_dec x a then true else false).
Definition Opt (r : re) : re := Alt r Eps.
Definition Plus (r : re) : re := Seq r (Star true r).
Fixpoint Rep (n : nat) (r : re) : re :=
  match n with
  | O => Eps
  | S n' => Seq r (Rep n' r)
  end.
Fixpoint Str (s : str) : re :=
  match s with
  | [] => Eps
  | x :: s' => Seq (Chr x) (Str s')
  end.
Definition Word (s : String.string) : re := Str (lit s).
Arguments Word s%_string.
Fixpoint Alts (rs : list re) : re :=
  match rs with
  | [] => Cls (fun _ => false)
  | [r] => r
  | r :: rs' => Alt r (Alts rs')
  end.
Fixpoint Seqs (rs : list re) : re :=
  match rs with
  | [] => Eps
  | [r] => r
  | r :: rs' => Seq r (Seqs rs')
  end.

Definition digit : re := Cls isDigit.
Definition space : re := Cls isSpace.
Definition anyChar : re := Cls (fun _ => true).

(** A pattern with its [i] flag. *)
Record pattern : Type := Pattern { ignoreCase : bool; expr : re }.

(** One match: where it starts, the matched text, what follows it, and the
    captures. *)
Record found : Type := Found {
  index : nat;
  matched : str;
  after : str;
  groups : caps
}.

Definition matchHere (p : pattern) (s : str) : option (str * caps) :=
  run (ignoreCase p) (expr p) (fun s' c' => Some (s', c')) s [].

(** The leftmost match at or after the head of [s], which sits at index
    [i] of the subject. *)
Fixpoint searchFrom (p : pattern) (s : str) (i : nat) : option found :=
  match matchHere p s with
  | Some (rest, c) =>
      Some (Found i (firstn (length s - length rest) s) rest c)
  | None =>
      match s with
      | [] => None
      | _ :: s' => searchFrom p s' (S i)
      end
  end.

(** [text.match(pattern)] and [pattern.exec(text)] for a pattern without the
    [g] flag. *)
Definition exec (p : pattern) (s : str) : option found := searchFrom p s 0.

(** [pattern.test(text)] *)
Definition test (p : pattern) (s : str) : bool :=
  match exec p s with Some _ => true | None => false end.

(** [match[i]] of a match: a group that took no part is [undefined]. *)
Definition group (i : nat) (f : found) : option str := capture i (groups f).

(** The loop [while ((match = pattern.exec(text)) !== null)] over a pattern
    with the [g] flag: each search resumes where the last match ended. The
    fuel is the length of what remains; a match that consumed nothing would
    make the source loop forever, and ends the list here (none of the
    module's global patterns can match the empty string, see
    [execAll_progress]). *)
Fixpoint execAllFrom (fuel : nat) (p : pattern) (s : str) (i : nat) : list found :=
  match fuel with
  | O => []
  | S fuel' =>
      match searchFrom p s i with
      | None => []
      | Some f =>
          f :: (if length (after f) <? length s
                then execAllFrom fuel' p (after f) (index f + length (matched f))
                else [])
      end
  end.

Definition execAll (p : pattern) (s : str) : list found :=
  execAllFrom (S (length s)) p s 0.

(** [text.replace(pattern, by)] for a pattern with the [g] flag and a
    replacement without [$] references. *)
Fixpoint replaceAllFrom (fuel : nat) (p : pattern) (by_ : str) (s : str) : str :=
  match fuel with
  | O => s
  | S fuel' =>
      match searchFrom p s 0 with
      | None => s
      | Some f =>
          firstn (index f) s ++ by_ ++
          (if length (after f) <? length s
           then replaceAllFrom fuel' p by_ (after f)
           else after f)
      end
  end.

Definition replaceAll (p : pattern) (by_ : str) (s : str) : str :=
  replaceAllFrom (S (length s)) p by_ s.

Section Language.

Variable ci : bool.

(** What a regular expression can match, captures aside. *)
Inductive lang : re -> str -> Prop :=
  | LEps : lang Eps []
  | LCls p x : clsMatch ci p x = true -> lang (Cls p) [x]
  | LSeq r1 r2 a b : lang r1 a -> lang r2 b -> lang (Seq r1 r2) (a ++ b)
  | LAltL r1 r2 a : lang r1 a -> lang (Alt r1 r2) a
  | LAltR r1 r2 a : lang r2 a -> lang (Alt r1 r2) a
  | LStarNil g r : lang (Star g r) []
  | LStarCons g r a b : lang r a -> lang (Star g r) b -> lang (Star g r) (a ++ b)
  | LGroup i r a : lang r a -> lang (Group i r) a.

(** Every capture satisfies [Q]. *)
Variable Q : nat -> str -> Prop.

Definition capsAll (c : caps) : Prop :=
  forall i v, capture i c = Some v -> Q i v.

(** Every group of the expression can only capture strings that satisfy [Q]. *)
Fixpoint groupsIn (r : re) : Prop :=
  match r with
  | Eps | Cls _ => True
  | Seq r1 r2 | Alt r1 r2 => groupsIn r1 /\ groupsIn r2
  | Star _ r1 => groupsIn r1
  | Group i r1 => (forall a, lang r1 a -> Q i a) /\ groupsIn r1
  end.

(** Group [i] takes part in every match of the expression. *)
Fixpoint binds (i : nat) (r : re) : bool :=
  match r with
  | Eps | Cls _ | Star _ _ => false
  | Seq r1 r2 => binds i r1 || binds i r2
  | Alt r1 r2 => binds i r1 && binds i r2
  | Group j r1 => Nat.eqb i j || binds i r1
  end.

(** The code units an expression can match all satisfy [P]. *)
Variable P : ascii -> Prop.

Fixpoint charsIn (r : re) : Prop :=
  match r with
  | Eps => True
  | Cls p => forall x, clsMatch ci p x = true -> P x
  | Seq r1 r2 | Alt r1 r2 => charsIn r1 /\ charsIn r2
  | Star _ r1 | Group _ r1 => charsIn r1
  end.

(** An expression that cannot match the empty string. *)
Fixpoint canBeEmpty (r : re) : bool :=
  match r with
  | Eps | Star _ _ => true
  | Cls _ => false
  | Seq r1 r2 => canBeEmpty r1 && canBeEmpty r2
  | Alt r1 r2 => canBeEmpty r1 || canBeEmpty r2
  | Group _ r1 => canBeEmpty r1
  end.

End Language.

End Regex.

Import Regex.

(** A loop that pushes onto an array for some of the elements it visits:
    the pushed values, in the order of the visit. *)
Fixpoint keep {A B} (f : A -> option B) (l : list A) : list B :=
  match l with
  | [] => []
  | x :: l' =>
      match f x with
      | Some y => y :: keep f l'
      | None => keep f l'
      end
  end.

(* ================================================================== *)
(** ** ReferenceExtractor *)
(* ================================================================== *)

(** [\d{5}[A-Z]\d{4}(?:\(\d+\))?] *)
Definition celexCore : re :=
  Seqs [Rep 5 digit; Cls isUpperAscii; Rep 4 digit;
        Opt (Seqs [Chr "("%char; Plus digit; Chr ")"%char])].

(** [\s*\(?EU\)?\s*(?:No\.?\s* )?] (in the patterns quoted in comments a
    blank separates a star from a closing parenthesis) *)
Definition euNo : re :=
  Seqs [Star true space; Opt (Chr "("%char); Word "EU"; Opt (Chr ")"%char);
        Star true space;
        Opt (Seqs [Word "No"; Opt (Chr "."%char); Star true space])].

(** [\d{4}\/\d+] and [\d+\/\d{4}] *)
Definition yearNumber : re := Seqs [Rep 4 digit; Chr "/"%char; Plus digit].
Definition numberYear : re := Seqs [Plus digit; Chr "/"%char; Rep 4 digit].

(** The three patterns of [extractCelexId], in the order of the source. *)

(** [/CELEX[:\s]*(\d{5}[A-Z]\d{4}(?:\(\d+\))?)/i] *)
Definition celexExplicit : pattern :=
  Pattern true
    (Seqs [Word "CELEX";
           Star true (Cls (fun x => (if ascii_dec x ":"%char then true else false) || isSpace x));
           Group 1 celexCore]).

(** [/(\d{5}[A-Z]\d{4}(?:\(\d+\))?)/] *)
Definition celexBare : pattern := Pattern false (Group 1 celexCore).

(** [/(?:Regulation|Directive|Decision)\s*\(?EU\)?\s*(?:No\.?\s* )?(\d{4}\/\d+)/i] *)
Definition celexPhrase : pattern :=
  Pattern true
    (Seqs [Alts [Word "Regulation"; Word "Directive"; Word "Decision"];
           euNo; Group 1 yearNumber]).

Definition celexPatterns : list pattern := [celexExplicit; celexBare; celexPhrase].

(** The loop [for (const pattern of patterns) { const match = ...;
    if (match) return match[1]; }]: the first pattern that matches decides. *)
Fixpoint firstMatch (ps : list pattern) (text : str) : option str :=
  match ps with
  | [] => None
  | p :: ps' =>
      match exec p text with
      | Some f => group 1 f
      | None => firstMatch ps' text
      end
  end.

(** [!text] for a string that may be [undefined]. *)
Definition falsy (t : option str) : bool :=
  match t with
  | None => true
  | Some [] => true
  | Some _ => false
  end.

Definition extractCelexId (text : option str) : option str :=
  match text with
  | None => None
  | Some [] => None
  | Some t => firstMatch celexPatterns t
  end.

(** [/Regulation\s*\(?EU\)?\s*(?:No\.?\s* )?(\d{4}\/\d+|\d+\/\d{4})/gi],
    [/Regulation\s*\(?EU\)?\s*(\d{4}\/\d+)/gi] and
    [/(?:EU|EC)\s*(?:No\.?\s* )?(\d+\/\d{4})/gi] *)
Definition regPatterns : list pattern :=
  [ Pattern true
      (Seqs [Word "Regulation"; euNo; Group 1 (Alt yearNumber numberYear)]);
    Pattern true
      (Seqs [Word "Regulation"; Star true space; Opt (Chr "("%char); Word "EU";
             Opt (Chr ")"%char); Star true space; Group 1 yearNumber]);
    Pattern true
      (Seqs [Alt (Word "EU") (Word "EC"); Star true space;
             Opt (Seqs [Word "No"; Opt (Chr "."%char); Star true space]);
             Group 1 numberYear]) ].

(** [/Directive\s*\(?EU\)?\s*(?:No\.?\s* )?(\d{4}\/\d+|\d+\/\d{4})/gi] and
    [/Directive\s*(\d{4}\/\d+)/gi] *)
Definition dirPatterns : list pattern :=
  [ Pattern true
      (Seqs [Word "Directive"; euNo; Group 1 (Alt yearNumber numberYear)]);
    Pattern true
      (Seqs [Word "Directive"; Star true space; Group 1 yearNumber]) ].

(** The acronym table, in the order of its entries. *)
Definition acronyms : list (str * str) :=
  [ (lit "GDPR", lit "Regulation (EU) 2016/679");
    (lit "DSA", lit "Regulation (EU) 2022/2065");
    (lit "DMA", lit "Regulation (EU) 2022/1925");
    (lit "AI Act", lit "Regulation (EU) 2024/1689");
    (lit "MiCA", lit "Regulation (EU) 2023/1114");
    (lit "DORA", lit "Regulation (EU) 2022/2554");
    (lit "ePrivacy", lit "Directive 2002/58/EC");
    (lit "NIS2", lit "Directive (EU) 2022/2555");
    (lit "CRA", lit "Cyber Resilience Act");
    (lit "Data Act", lit "Regulation (EU) 2023/2854");
    (lit "MiFID II", lit "Directive 2014/65/EU");
    (lit "MiFIR", lit "Regulation (EU) 600/2014") ].

(** A [Set] of strings, as the list of its elements in insertion order
    (the order [Array.from] reads them in). *)
Definition setHas (x : str) (l : list str) : bool := existsb (str_eqb x) l.

Definition setAdd (x : str) (l : list str) : list str :=
  if setHas x l then l else l ++ [x].

Definition setOf (l : list str) : list str :=
  fold_left (fun acc x => setAdd x acc) l [].

(** [match[1]] inside a template literal. *)
Definition group1Text (f : found) : str :=
  match group 1 f with
  | Some v => v
  | None => lit "undefined"
  end.

(** One [while] loop: every match of [p] adds [prefix + match[1]]. *)
Definition addMatches (prefix : str) (text : str) (refs : list str) (p : pattern)
  : list str :=
  fold_left (fun acc f => setAdd (prefix ++ group1Text f) acc) (execAll p text) refs.

(** The references after the two pattern loops. *)
Definition patternReferences (text : str) : list str :=
  let refs := fold_left (addMatches (lit "Regulation ") text) regPatterns [] in
  fold_left (addMatches (lit "Directive ") text) dirPatterns refs.

(** The acronym loop over a table. *)
Definition addAcronyms (table : list (str * str)) (text : str) (refs : list str)
  : list str :=
  fold_left
    (fun acc e => if includes text (fst e) then setAdd (snd e) acc else acc)
    table refs.

Definition extractLegalReferences (text : option str) : list str :=
  match text with
  | None => []
  | Some [] => []
  | Some t => addAcronyms acronyms t (patternReferences t)
  end.

(* ================================================================== *)
(** ** RelatedDocumentScorer *)
(* ================================================================== *)

(** An item of the corpus; an absent property is [None]. *)
Record Item : Type := mkItem {
  id : option str;
  url : option str;
  title : option str;
  summary : option str;
  categories : option (list str);
  tags : option (list str);
  added : option str;
  date : option str
}.

Inductive Relationship : Type :=
  | SameRegulation | References | ReferencedBy | Amendment | Related.

Record RelatedMatch : Type := mkMatch {
  item : Item;
  score : Z;
  relationship : Relationship
}.

(** [x || ''] and [x || []] *)
Definition orEmpty {A} (x : option (list A)) : list A :=
  match x with Some v => v | None => [] end.

(** [a || b] on strings that may be absent. *)
Definition orElse (a b : option str) : option str :=
  if falsy a then b else a.

(** [a === b] on strings that may be absent: two absent values are equal. *)
Definition strictEq (a b : option str) : bool :=
  match a, b with
  | None, None => true
  | Some x, Some y => str_eqb x y
  | _, _ => false
  end.

(** The text of an item: title and summary, lower-cased. *)
Definition itemTextOf (it : Item) : str :=
  toLowerCase (orEmpty (title it) ++ lit " " ++ orEmpty (summary it)).

Definition celexOf (it : Item) : option str :=
  orElse (extractCelexId (title it)) (extractCelexId (url it)).

(** [/amend(?:ing|s|ed)?/i], [/implement(?:ing|s|ed)?/i],
    [/supplement(?:ing|s|ed)?/i], [/delegat(?:ing|ed)/i], [/corrigendum/i] *)
Definition amendPatterns : list pattern :=
  let suffix := Opt (Alts [Word "ing"; Word "s"; Word "ed"]) in
  [ Pattern true (Seq (Word "amend") suffix);
    Pattern true (Seq (Word "implement") suffix);
    Pattern true (Seq (Word "supplement") suffix);
    Pattern true (Seq (Word "delegat") (Alt (Word "ing") (Word "ed")));
    Pattern true (Word "corrigendum") ].

(** A string argument that may be [undefined], as [RegExp.prototype.test]
    reads it. *)
Definition toStringArg (t : option str) : str :=
  match t with Some v => v | None => lit "undefined" end.

(** [refs.some(ref => text.includes(ref.toLowerCase()))] *)
Definition someIncluded (refs : list str) (text : str) : bool :=
  existsb (fun ref => includes text (toLowerCase ref)) refs.

(** [[...new Set(xs)].filter(c => new Set(ys).has(c)).length] *)
Definition countShared (xs ys : list str) : Z :=
  Z.of_nat (length (filter (fun c => setHas c (setOf ys)) (setOf xs))).

(** The words of a text longer than four code units. *)
Definition longWords (text : str) : list str :=
  filter (fun w => 4 <? length w) (splitSpaces text).

Section Scorer.

Local Open Scope Z_scope.

(** [Date.now()] in milliseconds, and [new Date(s).getTime()], which is
    [NaN] ([None]) on a string that is not a date. *)
Variable now : Z.
Variable parseDate : str -> option Z.

(** The recency bonus. [daysDiff < 30] compares a quotient by 86400000
    with 30: on integers, the difference with 30 * 86400000. *)
Definition recencyBonus (other : Item) : Z :=
  match orElse (added other) (date other) with
  | None => 0
  | Some [] => 0
  | Some d =>
      match parseDate d with
      | None => 0
      | Some t =>
          let diff := Z.abs (now - t) in
          if diff <? 30 * 86400000 then 10
          else if diff <? 90 * 86400000 then 5
          else 0
      end
  end.

(** The loop over [amendPatterns]: some pattern matches the candidate's
    title and some reference of the candidate occurs in the target's text. *)
Definition amendmentFires (target other : Item) : bool :=
  let itemText := itemTextOf target in
  let otherRefs := extractLegalReferences (Some (itemTextOf other)) in
  existsb (fun p => test p (toStringArg (title other)) &&
                    someIncluded otherRefs itemText) amendPatterns.

(** The body of the loop after the identity check: the score of a candidate
    and its relationship ([None] is [null]). *)
Definition scoreCandidate (target other : Item) : Z * option Relationship :=
  let itemText := itemTextOf target in
  let itemCelex := celexOf target in
  let itemRefs := extractLegalReferences (Some itemText) in
  let otherText := itemTextOf other in
  let otherCelex := celexOf other in
  let otherRefs := extractLegalReferences (Some otherText) in
  (* same CELEX base *)
  let '(score, rel) :=
    if negb (falsy itemCelex) && negb (falsy otherCelex)
    then if str_eqb (slice (orEmpty itemCelex) 0 9) (slice (orEmpty otherCelex) 0 9)
         then (50, Some SameRegulation)
         else (0, None)
    else (0, None) in
  (* references each other *)
  let '(score, rel) :=
    if someIncluded itemRefs otherText
    then (score + 30, match rel with Some r => Some r | None => Some References end)
    else (score, rel) in
  let '(score, rel) :=
    if someIncluded otherRefs itemText
    then (score + 30, match rel with Some r => Some r | None => Some ReferencedBy end)
    else (score, rel) in
  (* amendment patterns: the first that fires ends the loop *)
  let '(score, rel) :=
    if amendmentFires target other
    then (score + 40, Some Amendment)
    else (score, rel) in
  (* category and tag overlap *)
  let itemCats := orEmpty (categories target) ++ orEmpty (tags target) in
  let otherCats := orEmpty (categories other) ++ orEmpty (tags other) in
  let score := score + countShared itemCats otherCats * 5 in
  (* word overlap *)
  let wordOverlap := countShared (longWords itemText) (longWords otherText) in
  let score := score + Z.min (wordOverlap * 2) 20 in
  (* recency *)
  let score := score + recencyBonus other in
  (score, rel).

(** [other.id === item.id || other.url === item.url]: the candidate is
    passed over. *)
Definition skipped (target other : Item) : bool :=
  strictEq (id other) (id target) || strictEq (url other) (url target).

(** One turn of the [for] loop over the corpus: the entry pushed for a
    candidate, if any. *)
Definition candidateMatch (target other : Item) : option RelatedMatch :=
  if skipped target other then None
  else
    let '(sc, rel) := scoreCandidate target other in
    if 10 <? sc
    then Some (mkMatch other sc (match rel with Some r => r | None => Related end))
    else None.

(** The loop: the retained candidates, in the order of the corpus. *)
Definition scoreAll (target : Item) (allItems : list Item) : list RelatedMatch :=
  keep (candidateMatch target) allItems.

(** [scored.sort((a, b) => b.score - a.score)]: [Array.prototype.sort] is
    stable, and on a total preorder a stable sort has one result, which
    insertion computes. *)
Fixpoint insertByScore (x : RelatedMatch) (l : list RelatedMatch) : list RelatedMatch :=
  match l with
  | [] => [x]
  | y :: l' =>
      if score x <? score y then y :: insertByScore x l' else x :: l
  end.

Fixpoint sortByScore (l : list RelatedMatch) : list RelatedMatch :=
  match l with
  | [] => []
  | x :: l' => insertByScore x (sortByScore l')
  end.

(** [findRelatedDocuments(item, allItems, { maxResults })]; [maxResults] is
    [None] when the option is left out. *)
Definition findRelatedDocuments (target : option Item) (allItems : option (list Item))
           (maxResults : option Z) : list RelatedMatch :=
  let maxResults := match maxResults with Some n => n | None => 10 end in
  match target, allItems with
  | None, _ => []
  | _, None => []
  | _, Some [] => []
  | Some t, Some items => slice (sortByScore (scoreAll t items)) 0 maxResults
  end.

End Scorer.

(* ================================================================== *)
(** ** ContentExtractor: HTML *)
(* ================================================================== *)

(** The parsed document: elements with their local name (lower case),
    attributes and children; text and comment nodes. *)
Inductive Node : Type :=
  | Text : str -> Node
  | Comment : str -> Node
  | Elem : str -> list (str * str) -> list Node -> Node.

Record Document : Type := mkDocument {
  documentElement : Node;
  body : option Node
}.

(** [node.textContent]: the text nodes below, in document order. *)
Fixpoint textContent (n : Node) : str :=
  match n with
  | Text t => t
  | Comment _ => []
  | Elem _ _ cs => flat_map textContent cs
  end.

(** The elements below a node, in document order (a parent before its
    children, siblings left to right). *)
Fixpoint descendants (n : Node) : list Node :=
  match n with
  | Elem _ _ cs =>
      flat_map (fun c => match c with
                         | Elem _ _ _ => c :: descendants c
                         | _ => []
                         end) cs
  | _ => []
  end.

(** The simple selectors the module queries with. *)
Inductive Selector : Type :=
  | ByTag : str -> Selector
  | ByAttr : str -> str -> Selector
  | ByClass : str -> Selector
  | ById : str -> Selector.

(** The tokens of a class attribute: the DOM splits it on ASCII white space
    (tab, line feed, form feed, carriage return, blank) only. *)
Definition isAsciiSpace (a : ascii) : bool :=
  (code a =? 9) || (code a =? 10) || (code a =? 12) || (code a =? 13) || (code a =? 32).

Fixpoint classTokensAux (s : str) (cur : str) : list str :=
  match s with
  | [] => [rev cur]
  | x :: s' =>
      if isAsciiSpace x then rev cur :: classTokensAux s' []
      else classTokensAux s' (x :: cur)
  end.

Definition classTokens (s : str) : list str :=
  filter (fun t => match t with [] => false | _ => true end) (classTokensAux s []).

Fixpoint attribute (name : str) (attrs : list (str * str)) : option str :=
  match attrs with
  | [] => None
  | (n, v) :: rest => if str_eqb n name then Some v else attribute name rest
  end.

Definition matchesSelector (sel : Selector) (n : Node) : bool :=
  match n with
  | Elem tag attrs _ =>
      match sel with
      | ByTag t => str_eqb tag t
      | ByAttr name v =>
          match attribute name attrs with
          | Some v' => str_eqb v' v
          | None => false
          end
      | ByClass c =>
          match attribute (lit "class") attrs with
          | Some v' => existsb (str_eqb c) (classTokens v')
          | None => false
          end
      | ById i =>
          match attribute (lit "id") attrs with
          | Some v' => str_eqb v' i
          | None => false
          end
      end
  | _ => false
  end.

(** [el.querySelectorAll('a, b, ...')]: the descendants that match one of
    the selectors, in document order. *)
Definition querySelectorAll (sels : list Selector) (n : Node) : list Node :=
  filter (fun d => existsb (fun sel => matchesSelector sel d) sels) (descendants n).

(** [doc.querySelector(sel)]: the first element of the document that matches. *)
Definition querySelector (sel : Selector) (doc : Document) : option Node :=
  hd_error (filter (matchesSelector sel) (documentElement doc :: descendants (documentElement doc))).

Definition selectors : list Selector :=
  [ ByTag (lit "article");
    ByTag (lit "main");
    ByAttr (lit "role") (lit "main");
    ByClass (lit "content");
    ByClass (lit "article-content");
    ByClass (lit "post-content");
    ById (lit "content");
    ById (lit "main");
    ByClass (lit "eli-main-body");
    ByClass (lit "texte");
    ByClass (lit "doc-content") ].

(** The loop over the selectors, then the fall back to the body. *)
Fixpoint firstSelected (sels : list Selector) (doc : Document) : option Node :=
  match sels with
  | [] => None
  | sel :: rest =>
      match querySelector sel doc with
      | Some el => Some el
      | None => firstSelected rest doc
      end
  end.

Definition mainElement (doc : Document) : option Node :=
  match firstSelected selectors doc with
  | Some el => Some el
  | None => body doc
  end.

(** A classified section. *)
Inductive Block : Type :=
  | Heading : nat -> str -> Block
  | Paragraph : str -> Block
  | ListItem : str -> Block
  | Table : str -> Block.

Definition tagOf (n : Node) : str :=
  match n with
  | Elem tag _ _ => tag
  | _ => []
  end.

(** [parseInt(h.tagName[1])] on an element h1 .. h6. *)
Definition headingLevel (n : Node) : nat :=
  match tagOf n with
  | _ :: d :: _ => code d - 48
  | _ => 0
  end.

Definition headingOf (h : Node) : option Block :=
  let text := trim (textContent h) in
  match text with
  | [] => None
  | _ => Some (Heading (headingLevel h) text)
  end.

(** [if (text && text.length > 20)] *)
Definition paragraphOf (p : Node) : option Block :=
  let text := trim (textContent p) in
  match text with
  | [] => None
  | _ => if 20 <? length text then Some (Paragraph text) else None
  end.

(** [if (text && text.length > 10)] *)
Definition listItemOf (li : Node) : option Block :=
  let text := trim (textContent li) in
  match text with
  | [] => None
  | _ => if 10 <? length text then Some (ListItem text) else None
  end.

Definition rowOf (tr : Node) : option str :=
  let cells := map (fun cell => trim (textContent cell))
                   (querySelectorAll [ByTag (lit "th"); ByTag (lit "td")] tr) in
  match cells with
  | [] => None
  | _ => Some (join (lit " | ") cells)
  end.

Definition newline : str := [chr 10].

Definition tableOf (table : Node) : option Block :=
  let rows := keep rowOf (querySelectorAll [ByTag (lit "tr")] table) in
  match rows with
  | [] => None
  | _ => Some (Table (join newline rows))
  end.

Definition headingTags : list Selector :=
  map (fun t => ByTag t)
      [lit "h1"; lit "h2"; lit "h3"; lit "h4"; lit "h5"; lit "h6"].

(** The four passes of the source over the main element, each pushing onto
    the same array. *)
Definition collectSections (mainEl : Node) : list Block :=
  let sections := [] in
  let sections := sections ++ keep headingOf (querySelectorAll headingTags mainEl) in
  let sections := sections ++ keep paragraphOf (querySelectorAll [ByTag (lit "p")] mainEl) in
  let sections := sections ++ keep listItemOf (querySelectorAll [ByTag (lit "li")] mainEl) in
  let sections := sections ++ keep tableOf (querySelectorAll [ByTag (lit "table")] mainEl) in
  sections.

(** The classification of one element, by its tag. *)
Definition classify (n : Node) : option Block :=
  if existsb (fun sel => matchesSelector sel n) headingTags then headingOf n
  else if matchesSelector (ByTag (lit "p")) n then paragraphOf n
  else if matchesSelector (ByTag (lit "li")) n then listItemOf n
  else if matchesSelector (ByTag (lit "table")) n then tableOf n
  else None.

(** The specification's wording, for comparison with [collectSections]: the
    classified sections in document order, as one stream. *)
Definition sectionsInDocumentOrder (mainEl : Node) : list Block :=
  keep classify (descendants mainEl).

Definition isHeading (b : Block) : bool :=
  match b with Heading _ _ => true | _ => false end.
Definition isParagraph (b : Block) : bool :=
  match b with Paragraph _ => true | _ => false end.
Definition isListItem (b : Block) : bool :=
  match b with ListItem _ => true | _ => false end.
Definition isTable (b : Block) : bool :=
  match b with Table _ => true | _ => false end.

(** [stripHtml]: the chain of replacements, then [trim]. *)
Definition lazyAny : re := Star false anyChar.

Definition stripPatterns : list (pattern * str) :=
  [ (Pattern true (Seqs [Word "<script"; lazyAny; Word "</script>"]), []);
    (Pattern true (Seqs [Word "<style"; lazyAny; Word "</style>"]), []);
    (Pattern true (Seqs [Word "<nav"; lazyAny; Word "</nav>"]), []);
    (Pattern true (Seqs [Word "<footer"; lazyAny; Word "</footer>"]), []);
    (Pattern true (Seqs [Word "<header"; lazyAny; Word "</header>"]), []);
    (Pattern true (Seqs [Word "<aside"; lazyAny; Word "</aside>"]), []);
    (Pattern false (Seqs [Word "<!--"; lazyAny; Word "-->"]), []);
    (Pattern false
       (Seqs [Chr "<"%char;
              Plus (Cls (fun x => if ascii_dec x ">"%char then false else true));
              Chr ">"%char]), lit " ");
    (Pattern false (Word "&nbsp;"), lit " ");
    (Pattern false (Word "&amp;"), lit "&");
    (Pattern false (Word "&lt;"), lit "<");
    (Pattern false (Word "&gt;"), lit ">");
    (Pattern false (Word "&quot;"), [chr 34]);
    (Pattern false (Word "&#39;"), lit "'");
    (Pattern false (Plus space), lit " ") ].

Definition stripHtml (html : option str) : str :=
  trim (fold_left (fun acc pr => replaceAll (fst pr) (snd pr) acc)
                  stripPatterns (orEmpty html)).

Section Html.

(** What the browser provides: the HTML parser and the serialisation
    [el.innerHTML]. *)
Variable parseFromString : str -> Document.
Variable innerHTML : Node -> str.

(** The marker of a list item: the literal of the source between the line
    feed and the item's text (a bullet and a blank; one of its code units
    lies above 255). *)
Variable bulletMarker : str.

Definition renderBlock (b : Block) : str :=
  match b with
  | Heading level text =>
      newline ++ newline ++ repeatStr (lit "#") level ++ lit " " ++ text ++ newline
  | Paragraph text => newline ++ text
  | ListItem text => newline ++ bulletMarker ++ text
  | Table text =>
      newline ++ newline ++ lit "[TABLE]" ++ newline ++ text ++ newline ++
      lit "[/TABLE]" ++ newline
  end.

Definition renderSections (sections : list Block) : str :=
  fold_left (fun result b => result ++ renderBlock b) sections [].

Definition extractMainContent (html : str) : str :=
  let doc := parseFromString html in
  match mainElement doc with
  | None => stripHtml (Some html)
  | Some mainEl =>
      let result := renderSections (collectSections mainEl) in
      let result :=
        if length (trim result) <? 200 then stripHtml (Some (innerHTML mainEl))
        else result in
      trim result
  end.

End Html.

(* ================================================================== *)
(** ** ContentExtractor: fetching *)
(* ================================================================== *)

(** A thrown value: an error with its name and message. *)
Record JsError : Type := mkError { errorName : str; message : str }.

(** A call returns or throws (an [async] function: its promise is
    fulfilled or rejected). *)
Inductive Outcome (A : Type) : Type :=
  | Returned : A -> Outcome A
  | Raised : JsError -> Outcome A.
Arguments Returned {A} _.
Arguments Raised {A} _.

Definition bind {A B} (m : Outcome A) (f : A -> Outcome B) : Outcome B :=
  match m with
  | Returned a => f a
  | Raised e => Raised e
  end.

Notation "x <- m ;; k" := (bind m (fun x => k))
  (at level 61, m at next level, right associativity).

Definition TypeError (msg : String.string) : JsError := mkError (lit "TypeError") (lit msg).
Arguments TypeError msg%_string.

(** A value decoded from JSON, with [undefined] for what an object lacks. *)
Inductive JsVal : Type :=
  | JUndefined : JsVal
  | JNull : JsVal
  | JBool : bool -> JsVal
  | JNum : Z -> JsVal
  | JStr : str -> JsVal
  | JArr : list JsVal -> JsVal
  | JObj : list (str * JsVal) -> JsVal.

Fixpoint field (name : str) (fields : list (str * JsVal)) : JsVal :=
  match fields with
  | [] => JUndefined
  | (n, v) :: rest => if str_eqb n name then v else field name rest
  end.

(** [v.name]: reading a property of [undefined] or [null] throws. *)
Definition getProp (v : JsVal) (name : str) : Outcome JsVal :=
  match v with
  | JUndefined | JNull => Raised (TypeError "Cannot read properties of undefined")
  | JObj fields => Returned (field name fields)
  | JStr s => Returned (if str_eqb name (lit "length") then JNum (len s) else JUndefined)
  | JArr l => Returned (if str_eqb name (lit "length") then JNum (Z.of_nat (length l)) else JUndefined)
  | _ => Returned JUndefined
  end.

Definition truthy (v : JsVal) : bool :=
  match v with
  | JUndefined | JNull => false
  | JBool b => b
  | JNum z => negb (z =? 0)%Z
  | JStr s => match s with [] => false | _ => true end
  | JArr _ | JObj _ => true
  end.

(** [v.slice(0, n)]: strings and arrays have the method. *)
Definition callSlice (v : JsVal) (n : Z) : Outcome JsVal :=
  match v with
  | JUndefined | JNull => Raised (TypeError "Cannot read properties of undefined")
  | JStr s => Returned (JStr (slice s 0 n))
  | JArr l => Returned (JArr (slice l 0 n))
  | _ => Raised (TypeError "slice is not a function")
  end.

(** [v > n] for a number [n]: the lengths the module compares are numbers;
    [undefined] compares false. *)
Definition greaterThan (v : JsVal) (n : Z) : bool :=
  match v with
  | JNum z => (n <? z)%Z
  | _ => false
  end.

(** A PDF as its reader shows it: the text fragments of each page, or the
    error reading the page throws. *)
Definition PdfDoc := list (Outcome (list str)).

(** What the network and the PDF reader answer during one call. *)
Inductive BackendReply : Type :=
  | BackendTimeout : BackendReply                    (* the request is aborted *)
  | BackendUnreachable : BackendReply                (* fetch or JSON decoding throws *)
  | BackendStatus : Z -> option JsVal -> BackendReply  (* not ok; the body when it is JSON *)
  | BackendJson : JsVal -> BackendReply.             (* ok, with the decoded body *)

Inductive DirectReply : Type :=
  | DirectThrows : JsError -> DirectReply            (* fetch throws; an abort has the name AbortError *)
  | DirectResponse : bool -> Z -> option str -> DirectReply. (* ok, status, content type *)

Record World : Type := mkWorld {
  backend : BackendReply;
  (* extractPdfText: the document behind the URL, when fetching and opening succeed *)
  pdfAtUrl : Outcome PdfDoc;
  direct : DirectReply;
  (* opening the body of the direct response as a PDF *)
  directPdf : Outcome PdfDoc;
  (* response.text() of the direct response *)
  directText : Outcome str
}.

Inductive Channel : Type := ViaBackend | Direct.

Inductive ExtractionResult : Type :=
  | Failure : str -> ExtractionResult
  | Success : JsVal -> JsVal -> bool -> JsVal -> Channel -> ExtractionResult.

(** [lower.endsWith('.pdf') || lower.includes('/pdf/') || ...] *)
Definition isPdfUrl (u : option str) : bool :=
  if falsy u then false
  else
    let lower := toLowerCase (orEmpty u) in
    endsWith lower (lit ".pdf") || includes lower (lit "/pdf/") ||
    includes lower (lit "format=pdf") || includes lower (lit "type=pdf").

Definition collapseSpaces (s : str) : str :=
  replaceAll (Pattern false (Plus space)) (lit " ") s.

(** The page loop: pages 1 .. maxPages, a page without text is left out. *)
Fixpoint pageTexts (normalise : str -> str) (i : nat) (pages : PdfDoc)
  : Outcome (list str) :=
  match pages with
  | [] => Returned []
  | pg :: rest =>
      items <- pg ;;
      let pageText := normalise (join (lit " ") items) in
      parts <- pageTexts normalise (S i) rest ;;
      Returned
        (match trim pageText with
         | [] => parts
         | _ => (lit "[Page " ++ natToString i ++ lit "]" ++ newline ++ pageText) :: parts
         end)
  end.

(** [extractPdfText(url)]: every failure is caught and gives [null]. *)
Definition extractPdfText (source : Outcome PdfDoc) : option str :=
  match source with
  | Raised _ => None
  | Returned pages =>
      let numPages := length pages in
      let maxPages := Nat.min numPages 50 in
      match pageTexts collapseSpaces 1 (firstn maxPages pages) with
      | Raised _ => None
      | Returned textParts =>
          let textParts :=
            if maxPages <? numPages
            then textParts ++
                 [newline ++ lit "[Note: Document has " ++ natToString numPages ++
                  lit " pages, showing first " ++ natToString maxPages ++ lit "]"]
            else textParts in
          Some (join (newline ++ newline) textParts)
      end
  end.

Definition failureObject (error : JsVal) (isBackendError : bool) : JsVal :=
  JObj ((lit "success", JBool false) :: (lit "error", error) ::
        (if isBackendError then [(lit "isBackendError", JBool true)] else [])).

Definition backendUnavailable : JsVal :=
  failureObject (JStr (lit "backend_unavailable")) true.

(** [fetchViaBackend]: the whole body is inside [try], so it always returns. *)
Definition fetchViaBackend (reply : BackendReply) : JsVal :=
  match reply with
  | BackendTimeout => failureObject (JStr (lit "Backend request timeout")) false
  | BackendUnreachable => backendUnavailable
  | BackendStatus status body =>
      let error := match body with Some v => v | None => JObj [] end in
      match getProp error (lit "error") with
      | Raised _ => backendUnavailable
      | Returned e =>
          failureObject (if truthy e then e else JStr (lit "HTTP " ++ zToString status)) false
      end
  | BackendJson data => data
  end.

Record Options : Type := mkOptions {
  maxLength : option Z;
  timeout : option Z
}.

Section Fetch.

Variable parseFromString : str -> Document.
Variable innerHTML : Node -> str.
Variable bulletMarker : str.

Definition successOf (kind : String.string) (text : str) (maxLength : Z) : ExtractionResult :=
  Success (JStr (slice text 0 maxLength)) (JStr (lit kind))
          (len text >? maxLength)%Z (JNum (len text)) Direct.

(** The [try] block of [fetchDocumentContent]. *)
Definition directFetch (w : World) (u : str) (maxLength : Z) : Outcome ExtractionResult :=
  let viaUrl := if isPdfUrl (Some u) then extractPdfText (pdfAtUrl w) else None in
  if negb (falsy viaUrl)
  then Returned (successOf "pdf" (orEmpty viaUrl) maxLength)
  else
    match direct w with
    | DirectThrows e => Raised e
    | DirectResponse ok status contentType =>
        if negb ok then Returned (Failure (lit "HTTP " ++ zToString status))
        else if includes (orEmpty contentType) (lit "application/pdf")
        then
          pages <- directPdf w ;;
          textParts <- pageTexts (fun t => t) 1 (firstn (Nat.min (length pages) 50) pages) ;;
          Returned (successOf "pdf" (join (newline ++ newline) textParts) maxLength)
        else
          html <- directText w ;;
          Returned (successOf "html" (extractMainContent parseFromString innerHTML bulletMarker html) maxLength)
    end.

(** [fetchDocumentContent(url, options)] against a world. The part up to
    the backend's success branch is outside [try]; the [catch] turns what
    the direct fetch throws into a failure. *)
Definition fetchDocumentContent (w : World) (u : option str) (options : Options)
  : Outcome ExtractionResult :=
  let maxLength := match maxLength options with Some n => n | None => 100000%Z end in
  if falsy u then Returned (Failure (lit "No URL provided"))
  else
    let backendResult := fetchViaBackend (backend w) in
    success <- getProp backendResult (lit "success") ;;
    if truthy success
    then
      content <- getProp backendResult (lit "content") ;;
      sliced <- callSlice content maxLength ;;
      type <- getProp backendResult (lit "type") ;;
      contentLength <- getProp content (lit "length") ;;
      originalLength <- getProp backendResult (lit "originalLength") ;;
      Returned (Success sliced type (greaterThan contentLength maxLength) originalLength ViaBackend)
    else
      isBackendError <- getProp backendResult (lit "isBackendError") ;;
      match directFetch w (orEmpty u) maxLength with
      | Returned r => Returned r
      | Raised e =>
          if str_eqb (errorName e) (lit "AbortError")
          then Returned (Failure (lit "Request timeout"))
          else
            Returned (Failure
              (if truthy isBackendError
               then lit "Direct fetch failed (" ++ message e ++
                    lit "). Start the backend server: python backend/server.py"
               else message e))
      end.

End Fetch.

(* ================================================================== *)
(** ** ContextBuilder *)
(* ================================================================== *)

Definition relationshipName (r : Relationship) : str :=
  match r with
  | SameRegulation => lit "same-regulation"
  | References => lit "references"
  | ReferencedBy => lit "referenced-by"
  | Amendment => lit "amendment"
  | Related => lit "related"
  end.

(** A value inside a template literal. *)
Fixpoint display (v : JsVal) : str :=
  match v with
  | JUndefined => lit "undefined"
  | JNull => lit "null"
  | JBool true => lit "true"
  | JBool false => lit "false"
  | JNum z => zToString z
  | JStr s => s
  | JArr l =>
      join (lit ",")
           (map (fun x => match x with
                          | JUndefined | JNull => []
                          | _ => display x
                          end) l)
  | JObj _ => lit "[object Object]"
  end.

Record DocInfo : Type := mkDocInfo {
  docIndex : nat;
  docTitle : option str;
  docUrl : option str;
  docDate : option str;
  docRelationship : Relationship;
  docReferences : list str;
  docContent : option JsVal;
  docContentType : option JsVal
}.

Record Context : Type := mkContext {
  context : str;
  documents : list DocInfo
}.

Record ContextOptions : Type := mkContextOptions {
  fetchContent : option bool;
  maxContentPerDoc : option Z
}.

Section ContextBuilder.

Variable parseFromString : str -> Document.
Variable innerHTML : Node -> str.
Variable bulletMarker : str.

(** What the network answers to the fetch for the document at a position. *)
Variable worldOf : nat -> World.

(** The body of the loop for the match at position [i] (from 0). *)
Definition contextBlock (fetch : bool) (maxPerDoc : Z) (i : nat) (m : RelatedMatch)
  : Outcome (DocInfo * str) :=
  let it := item m in
  let refs := extractLegalReferences
                (Some (toStringArg (title it) ++ lit " " ++ orEmpty (summary it))) in
  let when := orElse (added it) (date it) in
  let docInfo := mkDocInfo (i + 1) (title it) (url it) when (relationship m) refs None None in
  let contextEntry :=
    lit "[Related Doc " ++ natToString (i + 1) ++ lit "] (" ++
    relationshipName (relationship m) ++ lit ")" ++ newline ++
    lit "Title: " ++ toStringArg (title it) ++ newline ++
    lit "Date: " ++ (if falsy when then lit "Unknown" else orEmpty when) ++ newline ++
    lit "URL: " ++ toStringArg (url it) ++ newline ++
    lit "Summary: " ++ slice (orEmpty (summary it)) 0 500 in
  if fetch && negb (falsy (url it))
  then
    result <- fetchDocumentContent parseFromString innerHTML bulletMarker
                (worldOf i) (url it) (mkOptions (Some maxPerDoc) None) ;;
    match result with
    | Success content type _ _ _ =>
        shown <- callSlice content maxPerDoc ;;
        Returned
          (mkDocInfo (i + 1) (title it) (url it) when (relationship m) refs
                     (Some content) (Some type),
           contextEntry ++ newline ++ newline ++ lit "[Full Content]" ++ newline ++
           display shown)
    | Failure _ => Returned (docInfo, contextEntry)
    end
  else Returned (docInfo, contextEntry).

Fixpoint contextBlocks (fetch : bool) (maxPerDoc : Z) (i : nat) (ms : list RelatedMatch)
  : Outcome (list (DocInfo * str)) :=
  match ms with
  | [] => Returned []
  | m :: rest =>
      b <- contextBlock fetch maxPerDoc i m ;;
      bs <- contextBlocks fetch maxPerDoc (S i) rest ;;
      Returned (b :: bs)
  end.

(** [buildRelatedDocumentsContext(relatedDocs, options)] *)
Definition buildRelatedDocumentsContext (relatedDocs : option (list RelatedMatch))
           (options : ContextOptions) : Outcome Context :=
  let fetch := match fetchContent options with Some b => b | None => false end in
  let maxPerDoc := match maxContentPerDoc options with Some n => n | None => 5000%Z end in
  match relatedDocs with
  | None => Returned (mkContext [] [])
  | Some [] => Returned (mkContext [] [])
  | Some ms =>
      blocks <- contextBlocks fetch maxPerDoc 0 ms ;;
      Returned (mkContext (join (newline ++ newline ++ lit "---" ++ newline ++ newline)
                                (map snd blocks))
                          (map fst blocks))
  end.

End ContextBuilder.


(** [maxLength] after its default. *)
Definition effectiveMaxLength (options : Options) : Z :=
  match maxLength options with Some n => n | None => 100000%Z end.


(** A code unit of a number reference: a digit or the slash. *)
Definition numChar (x : ascii) : Prop := isDigit x = true \/ x = "/"%char.

(** The captures of the reference patterns: digits and slashes only. *)
Definition numeric (a : str) : Prop := Forall numChar a.

(** The shape of a reference the pattern loops add: Regulation or
    Directive, a blank, then digits and slashes. *)
Definition numberReference (r : str) : Prop :=
  exists c, (r = lit "Regulation " ++ c \/ r = lit "Directive " ++ c) /\ numeric c.

Definition numericb (a : str) : bool :=
  forallb (fun x => isDigit x || (if ascii_dec x "/"%char then true else false)) a.

Definition numberReferenceb (r : str) : bool :=
  (startsWith r (lit "Regulation ") && numericb (skipn 11 r)) ||
  (startsWith r (lit "Directive ") && numericb (skipn 10 r)).

(** The same world with another answer of the proxy. *)
Definition withBackend (reply : BackendReply) (w : World) : World :=
  mkWorld reply (pdfAtUrl w) (direct w) (directPdf w) (directText w).

(** The proxy did not answer with a decoded JSON body. *)
Definition proxyFailed (reply : BackendReply) : Prop :=
  forall data, reply <> BackendJson data.

(** A page of a PDF that is read and has no text after normalisation. *)
Definition blankPage (pg : Outcome (list str)) : Prop :=
  exists items, pg = Returned items /\
                trim (collapseSpaces (join (lit " ") items)) = [].

(** A world whose URL leads to a one-page PDF and whose proxy is down. *)
Definition samplePdfWorld : World :=
  mkWorld BackendUnreachable (Returned [Returned [lit "Hello"; lit "PDF"]])
          (DirectThrows (mkError (lit "TypeError") (lit "Failed to fetch")))
          (Raised (mkError (lit "Error") (lit "no reader")))
          (Raised (mkError (lit "Error") (lit "no body"))).

(** Fifty pages with text. *)
Definition fiftyPages : PdfDoc := repeat (Returned [lit "page"]) 50.

(** A string without white space at either end. *)
Definition trimmed (s : str) : Prop :=
  (forall x r, s = x :: r -> isSpace x = false) /\
  (forall x r, s = r ++ [x] -> isSpace x = false).

Definition startsWithSpace (s : str) : bool :=
  match s with
  | x :: _ => isSpace x
  | [] => false
  end.

(** A string whose only white space is single blanks: every white-space
    code unit is a blank and is not followed by another one. *)
Fixpoint singleSpaced (s : str) : Prop :=
  match s with
  | [] => True
  | x :: r =>
      (isSpace x = true -> x = " "%char /\ startsWithSpace r = false) /\
      singleSpaced r
  end.

(** [/\s+/g] *)
Definition spaceRun : pattern := Pattern false (Plus space).

(** A page body with a heading, a paragraph and a short list. *)
Definition sampleBody : Node :=
  Elem (lit "body") []
    [ Elem (lit "h2") [] [Text (lit "  Scope and definitions ")];
      Elem (lit "p") [] [Text (lit " This Regulation lays down harmonised rules. ")];
      Elem (lit "ul") [] [Elem (lit "li") [] [Text (lit "short")]] ].

(** What the text of a section always satisfies. *)
Definition wellFormedBlock (b : Block) : Prop :=
  match b with
  | Heading level text => 1 <= level <= 6 /\ text <> [] /\ trimmed text
  | Paragraph text => 20 < length text /\ trimmed text
  | ListItem text => 10 < length text /\ trimmed text
  | Table _ => True
  end.

(** The conditions of the relationship bonuses, as the loop tests them. *)
Definition sameInstrument (target other : Item) : bool :=
  negb (falsy (celexOf target)) && negb (falsy (celexOf other)) &&
  str_eqb (slice (orEmpty (celexOf target)) 0 9) (slice (orEmpty (celexOf other)) 0 9).

Definition refersTo (target other : Item) : bool :=
  someIncluded (extractLegalReferences (Some (itemTextOf target))) (itemTextOf other).

(** The documents of a context mirror the matches: positions from 1 on,
    and the title, URL and relationship of each match, in the order given. *)
Definition mirrors (docs : list DocInfo) (ms : list RelatedMatch) : Prop :=
  map docIndex docs = seq 1 (length ms) /\
  map docTitle docs = map (fun m => title (item m)) ms /\
  map docUrl docs = map (fun m => url (item m)) ms /\
  map docRelationship docs = map relationship ms.

(** A world whose direct channel answers a PDF under an HTML-looking URL. *)
Definition sampleDeclaredPdfWorld : World :=
  mkWorld BackendTimeout (Raised (mkError (lit "Error") (lit "not asked")))
          (DirectResponse true 200 (Some (lit "application/pdf; charset=binary")))
          (Returned [Returned [lit "Article"; lit "1"]; Returned []])
          (Raised (mkError (lit "Error") (lit "not text"))).

(** The sections grouped by kind: the document-order stream, headings
    first, then paragraphs, then list items, then tables. *)
Definition groupedSections (mainEl : Node) : list Block :=
  filter isHeading (sectionsInDocumentOrder mainEl) ++
  filter isParagraph (sectionsInDocumentOrder mainEl) ++
  filter isListItem (sectionsInDocumentOrder mainEl) ++
  filter isTable (sectionsInDocumentOrder mainEl).

(** A page whose structured text reaches 200 code units: a long paragraph
    followed by a heading. *)
Definition sampleParagraphText : str :=
  lit "This Regulation lays down harmonised rules on artificial intelligence and establishes obligations for providers, deployers, importers and distributors of high-risk systems placed on the market or put into service in the Union.".

Definition sampleHeadingText : str := lit "Scope of the Regulation".

Definition sampleLongBody : Node :=
  Elem (lit "body") []
    [ Elem (lit "p") [] [Text sampleParagraphText];
      Elem (lit "h2") [] [Text sampleHeadingText] ].

(** The markup of the page, and the document the parser makes of it. *)
Definition sampleLongHtml : str :=
  lit "<html><head></head><body><p>" ++ sampleParagraphText ++ lit "</p><h2>" ++
  sampleHeadingText ++ lit "</h2></body></html>".

Definition sampleLongDocument : Document :=
  mkDocument (Elem (lit "html") [] [Elem (lit "head") [] []; sampleLongBody])
             (Some sampleLongBody).

(** The retained candidates that precede a match in the ranking: those
    that score more, and those of the same score that come earlier in the
    corpus. [before] and [after] are the retained candidates on either side
    of the match. *)
Definition outranking (m : RelatedMatch) (before after : list RelatedMatch) : nat :=
  length (filter (fun x => score m <? score x)%Z (before ++ after)) +
  length (filter (fun x => score x =? score m)%Z before).

(** The scorer as it would be without the acronym table: the reference
    bonuses read the references of the number patterns only. *)
Definition numberRefersTo (target other : Item) : bool :=
  someIncluded (patternReferences (itemTextOf target)) (itemTextOf other).

Definition numberAmendmentFires (target other : Item) : bool :=
  existsb (fun p => test p (toStringArg (title other)) && numberRefersTo other target)
          amendPatterns.

Definition numberScore (now : Z) (parseDate : str -> option Z) (target other : Item)
  : Z * option Relationship :=
  ((if sameInstrument target other then 50 else 0) +
   (if numberRefersTo target other then 30 else 0) +
   (if numberRefersTo other target then 30 else 0) +
   (if numberAmendmentFires target other then 40 else 0) +
   countShared (orEmpty (categories target) ++ orEmpty (tags target))
               (orEmpty (categories other) ++ orEmpty (tags other)) * 5 +
   Z.min (countShared (longWords (itemTextOf target)) (longWords (itemTextOf other)) * 2) 20 +
   recencyBonus now parseDate other,
   if numberAmendmentFires target other then Some Amendment
   else if sameInstrument target other then Some SameRegulation
   else if numberRefersTo target other then Some References
   else if numberRefersTo other target then Some ReferencedBy
   else None)%Z.

(** The proxy call ended in the [catch] that sets [isBackendError]: the
    request or the decoding of its body threw, or the body of an HTTP error
    was [null]. *)
Definition proxyUnavailable (reply : BackendReply) : bool :=
  match reply with
  | BackendUnreachable => true
  | BackendStatus _ (Some JNull) => true
  | BackendStatus _ (Some JUndefined) => true
  | _ => false
  end.

(** A world with a PDF-shaped URL that cannot be read, a proxy that answers
    an HTTP error and a direct request that is refused. *)
Definition sampleRefusedWorld : World :=
  mkWorld (BackendStatus 503 (Some (JObj [(lit "error", JStr (lit "upstream down"))])))
          (Raised (mkError (lit "Error") (lit "Failed to fetch PDF: 404")))
          (DirectThrows (mkError (lit "TypeError") (lit "Failed to fetch")))
          (Raised (mkError (lit "Error") (lit "no body")))
          (Raised (mkError (lit "Error") (lit "no body"))).

(** The loop of a quantifier, as [run] unfolds it: [n] bounds the number
    of iterations still allowed. *)
Definition starLoop {A} (ci greedy : bool) (r1 : re) (k : str -> caps -> option A)
  : nat -> str -> caps -> option A :=
  fix loop (n : nat) (s : str) (c : caps) {struct n} : option A :=
    let again :=
      match n with
      | O => None
      | S n' =>
          run ci r1
            (fun s' c' =>
               if length s' <? length s then loop n' s' c' else None)
            s c
      end in
    if greedy
    then match again with Some x => Some x | None => k s c end
    else match k s c with Some x => Some x | None => again end.

(** A pattern occurs in a text: some part of the text is in its language. *)
Definition occurs (p : pattern) (text : str) : Prop :=
  exists pre m post, text = pre ++ m ++ post /\ lang (ignoreCase p) (expr p) m.

(** The order of the ranking: no later entry scores more. *)
Definition byScore (a b : RelatedMatch) : Prop := (score b <= score a)%Z.

(** [maxResults] after its default. *)
Definition effectiveMaxResults (maxResults : option Z) : Z :=
  match maxResults with Some n => n | None => 10%Z end.

(** ** Sample inputs *)

(** A world whose direct channel answers an HTML page and has no PDF. *)
Definition sampleWorld (reply : BackendReply) (text : Outcome str) : World :=
  mkWorld reply (Raised (mkError (lit "Error") (lit "no reader")))
          (DirectResponse true 200 (Some (lit "text/html")))
          (Raised (mkError (lit "Error") (lit "no reader"))) text.

(** A regulation, a decision amending it and a corrigendum to it. *)
Definition sampleTarget : Item :=
  mkItem (Some (lit "a")) (Some (lit "http://example.org/a"))
         (Some (lit "Regulation (EU) 2024/1689"))
         (Some (lit "Regulation 2024/1689 lays down harmonised rules"))
         None None None None.

Definition sampleAmendment : Item :=
  mkItem (Some (lit "b")) (Some (lit "http://example.org/b"))
         (Some (lit "Commission Decision amending Regulation (EU) 2024/1689"))
         None None None None None.

Definition sampleCorrigendum : Item :=
  mkItem (Some (lit "c")) (Some (lit "http://example.org/c"))
         (Some (lit "Corrigendum to Regulation (EU) 2024/1689"))
         (Some (lit "corrects Regulation 2024/1689 and its harmonised rules"))
         None None None None.

(* ================================================================== *)
(** * Properties *)
(* ================================================================== *)

(** ** Strings and sets *)

Lemma str_eqb_eq (a b : str) : str_eqb a b = true <-> a = b.
Proof.
  unfold str_eqb. destruct (list_eq_dec ascii_dec a b); split; congruence.
Qed.

Lemma str_eqb_refl (a : str) : str_eqb a a = true.
Proof. now apply str_eqb_eq. Qed.

Lemma str_eqb_neq (a b : str) : str_eqb a b = false <-> a <> b.
Proof.
  unfold str_eqb. destruct (list_eq_dec ascii_dec a b); split; congruence.
Qed.

Lemma startsWith_spec (p s : str) :
  startsWith s p = true <-> exists post, s = p ++ post.
Proof.
  revert s. induction p as [|y p IH]; intros s; simpl.
  - split; [intros _; now exists s | reflexivity].
  - destruct s as [|x s].
    + split; [discriminate | intros [post H]; discriminate].
    + destruct (ascii_dec x y) as [->|Hne].
      * rewrite IH. split; intros [post H]; exists post.
        -- now rewrite H.
        -- now injection H.
      * split; [discriminate | intros [post H]; injection H; congruence].
Qed.

Lemma includes_spec (p s : str) :
  includes s p = true <-> exists pre post, s = pre ++ p ++ post.
Proof.
  induction s as [|x s IH].
  - simpl. rewrite orb_false_r, startsWith_spec. split.
    + intros [post H]. now exists [], post.
    + intros [pre [post H]]. destruct pre; simpl in H.
      * now exists post.
      * discriminate.
  - cbn [includes]. rewrite orb_true_iff, startsWith_spec, IH. split.
    + intros [[post H]|[pre [post H]]].
      * now exists [], post.
      * exists (x :: pre), post. now rewrite H.
    + intros [pre [post H]]. destruct pre as [|y pre]; simpl in H.
      * left. now exists post.
      * right. injection H as _ H. now exists pre, post.
Qed.

Lemma setHas_In (x : str) (l : list str) : setHas x l = true <-> In x l.
Proof.
  unfold setHas. rewrite existsb_exists. split.
  - intros [y [Hy He]]. apply str_eqb_eq in He. now subst.
  - intros H. exists x. split; [assumption | apply str_eqb_refl].
Qed.

Lemma setAdd_In (x y : str) (l : list str) :
  In y (setAdd x l) <-> y = x \/ In y l.
Proof.
  unfold setAdd. destruct (setHas x l) eqn:E.
  - apply setHas_In in E. split; [now right | intros [->|H]; assumption].
  - rewrite in_app_iff. simpl. intuition congruence.
Qed.

Lemma keep_In {A B} (f : A -> option B) (l : list A) (y : B) :
  In y (keep f l) <-> exists x, In x l /\ f x = Some y.
Proof.
  induction l as [|a l IH]; simpl.
  - split; [tauto | intros [x [[] _]]].
  - destruct (f a) eqn:E; simpl; rewrite IH; split.
    + intros [->|[x [Hx Hf]]]; [exists a | exists x]; auto.
    + intros [x [[->|Hx] Hf]]; [left; congruence | right; exists x; auto].
    + intros [x [Hx Hf]]. exists x; auto.
    + intros [x [[->|Hx] Hf]]; [congruence | exists x; auto].
Qed.

Lemma keep_app {A B} (f : A -> option B) (l1 l2 : list A) :
  keep f (l1 ++ l2) = keep f l1 ++ keep f l2.
Proof.
  induction l1 as [|a l1 IH]; simpl; [reflexivity|].
  destruct (f a); simpl; now rewrite IH.
Qed.

(** ** ReferenceExtractor *)

Lemma addAcronyms_keeps (table : list (str * str)) (text : str) (refs : list str) (y : str) :
  In y refs -> In y (addAcronyms table text refs).
Proof.
  unfold addAcronyms. revert refs.
  induction table as [|e table IH]; intros refs H; simpl; [assumption|].
  apply IH. destruct (includes text (fst e)); [|assumption].
  apply setAdd_In. now right.
Qed.

Lemma addAcronyms_adds (table : list (str * str)) (text : str) (refs : list str)
      (acronym expansion : str) :
  In (acronym, expansion) table -> includes text acronym = true ->
  In expansion (addAcronyms table text refs).
Proof.
  revert refs. induction table as [|e table IH]; intros refs Hin Hinc; [destruct Hin|].
  destruct Hin as [->|Hin].
  - change (In expansion
              (addAcronyms table text
                 (if includes text acronym then setAdd expansion refs else refs))).
    rewrite Hinc. apply addAcronyms_keeps, setAdd_In. now left.
  - apply (IH _ Hin Hinc).
Qed.

Lemma acronyms_nonempty (acronym expansion : str) :
  In (acronym, expansion) acronyms -> acronym <> [].
Proof.
  unfold acronyms. simpl.
  intros H; repeat (destruct H as [H|H]; [injection H as <- _; discriminate|]).
  destruct H.
Qed.

(** C8. [extractLegalReferences] of the empty string is the empty set, and
    for every text that holds an acronym of the table as a literal
    substring, the result includes the acronym's expansion. *)
Theorem extractLegalReferences_acronyms :
  extractLegalReferences (Some []) = [] /\
  forall (text acronym expansion pre post : str),
    In (acronym, expansion) acronyms ->
    text = pre ++ acronym ++ post ->
    In expansion (extractLegalReferences (Some text)).
Proof.
  split; [reflexivity|].
  intros text acronym expansion pre post Hin Htext.
  assert (Hinc : includes text acronym = true)
    by (apply includes_spec; now exists pre, post).
  destruct text as [|x text].
  - exfalso. apply (acronyms_nonempty _ _ Hin).
    destruct pre; [destruct acronym; [reflexivity | discriminate] | discriminate].
  - unfold extractLegalReferences. now apply addAcronyms_adds with (acronym := acronym).
Qed.

Lemma extractLegalReferences_acronyms_witness :
  In (lit "DORA", lit "Regulation (EU) 2022/2554") acronyms /\
  lit "under DORA rules" = lit "under " ++ lit "DORA" ++ lit " rules" /\
  In (lit "Regulation (EU) 2022/2554")
     (extractLegalReferences (Some (lit "under DORA rules"))).
Proof.
  assert (H1 : In (lit "DORA", lit "Regulation (EU) 2022/2554") acronyms)
    by (unfold acronyms; simpl; tauto).
  assert (H2 : lit "under DORA rules" = lit "under " ++ lit "DORA" ++ lit " rules")
    by reflexivity.
  split; [exact H1 | split; [exact H2|]].
  exact (proj2 extractLegalReferences_acronyms _ _ _ _ _ H1 H2).
Defined.

(** ** HTML main content *)

(** C9, as the code has it. A paragraph is kept exactly when its trimmed
    text is longer than 20 code units and a list item exactly when its
    trimmed text is longer than 10: a paragraph of exactly 20 and a list item
    of exactly 10 are discarded. *)
Theorem short_blocks_discarded (mainEl : Node) (text : str) :
  (In (Paragraph text) (collectSections mainEl) <->
   exists p, In p (querySelectorAll [ByTag (lit "p")] mainEl) /\
             trim (textContent p) = text /\ 20 < length text) /\
  (In (ListItem text) (collectSections mainEl) <->
   exists li, In li (querySelectorAll [ByTag (lit "li")] mainEl) /\
              trim (textContent li) = text /\ 10 < length text).
Proof.
  unfold collectSections. rewrite app_nil_l, !in_app_iff, !keep_In.
  split; split.
  - intros [[[[x [_ H]]|[x [Hx H]]]|[x [_ H]]]|[x [_ H]]].
    + unfold headingOf in H. destruct (trim (textContent x)); discriminate.
    + exists x. split; [assumption|]. unfold paragraphOf in H.
      destruct (trim (textContent x)) as [|c r] eqn:E; [discriminate|].
      destruct (20 <? length (c :: r)) eqn:L; [|discriminate].
      apply Nat.ltb_lt in L. injection H as <-. split; [reflexivity | assumption].
    + unfold listItemOf in H. destruct (trim (textContent x)) as [|c r]; [discriminate|].
      destruct (10 <? length (c :: r)); discriminate.
    + unfold tableOf in H. destruct (keep rowOf _); discriminate.
  - intros [p [Hp [Ht Hl]]]. left. left. right. exists p. split; [assumption|].
    unfold paragraphOf. rewrite Ht. destruct text as [|c r]; [simpl in Hl; lia|].
    apply Nat.ltb_lt in Hl. now rewrite Hl.
  - intros [[[[x [_ H]]|[x [_ H]]]|[x [Hx H]]]|[x [_ H]]].
    + unfold headingOf in H. destruct (trim (textContent x)); discriminate.
    + unfold paragraphOf in H. destruct (trim (textContent x)) as [|c r]; [discriminate|].
      destruct (20 <? length (c :: r)); discriminate.
    + exists x. split; [assumption|]. unfold listItemOf in H.
      destruct (trim (textContent x)) as [|c r] eqn:E; [discriminate|].
      destruct (10 <? length (c :: r)) eqn:L; [|discriminate].
      apply Nat.ltb_lt in L. injection H as <-. split; [reflexivity | assumption].
    + unfold tableOf in H. destruct (keep rowOf _); discriminate.
  - intros [li [Hp [Ht Hl]]]. left. right. exists li. split; [assumption|].
    unfold listItemOf. rewrite Ht. destruct text as [|c r]; [simpl in Hl; lia|].
    apply Nat.ltb_lt in Hl. now rewrite Hl.
Qed.

(** C9 as stated fails: a paragraph of exactly 20 code units and a list
    item of exactly 10 are discarded. *)
Lemma exactly_threshold_discarded :
  let p := Elem (lit "p") [] [Text (lit "Exactly twenty chars")] in
  let li := Elem (lit "li") [] [Text (lit "Exactly 10")] in
  let mainEl := Elem (lit "body") [] [p; Elem (lit "ul") [] [li]] in
  length (trim (textContent p)) = 20 /\
  length (trim (textContent li)) = 10 /\
  collectSections mainEl = [].
Proof. vm_compute. repeat split; reflexivity. Qed.

Lemma keep_filter_kind (sel : Node -> bool) (f : Node -> option Block)
      (isK : Block -> bool) (l : list Node) :
  (forall n, sel n = true -> classify n = f n) ->
  (forall n b, f n = Some b -> isK b = true) ->
  (forall n b, sel n = false -> classify n = Some b -> isK b = false) ->
  keep f (filter sel l) = filter isK (keep classify l).
Proof.
  intros Hsel Hf Hother. induction l as [|n l IH]; simpl; [reflexivity|].
  destruct (sel n) eqn:E; simpl.
  - rewrite (Hsel n E). destruct (f n) as [b|] eqn:F; simpl.
    + now rewrite (Hf n b F), IH.
    + exact IH.
  - destruct (classify n) as [b|] eqn:C; simpl.
    + now rewrite (Hother n b E C).
    + exact IH.
Qed.

Lemma headingOf_kind (n : Node) (b : Block) : headingOf n = Some b -> isHeading b = true.
Proof.
  unfold headingOf. destruct (trim (textContent n)); [discriminate|].
  now intros [= <-].
Qed.

Lemma paragraphOf_kind (n : Node) (b : Block) : paragraphOf n = Some b -> isParagraph b = true.
Proof.
  unfold paragraphOf. destruct (trim (textContent n)) as [|c r]; [discriminate|].
  destruct (20 <? length (c :: r)); [|discriminate]. now intros [= <-].
Qed.

Lemma listItemOf_kind (n : Node) (b : Block) : listItemOf n = Some b -> isListItem b = true.
Proof.
  unfold listItemOf. destruct (trim (textContent n)) as [|c r]; [discriminate|].
  destruct (10 <? length (c :: r)); [|discriminate]. now intros [= <-].
Qed.

Lemma tableOf_kind (n : Node) (b : Block) : tableOf n = Some b -> isTable b = true.
Proof.
  unfold tableOf. destruct (keep rowOf _); [discriminate|]. now intros [= <-].
Qed.

Lemma kinds_disjoint (b : Block) :
  (isHeading b = true -> isParagraph b = false /\ isListItem b = false /\ isTable b = false) /\
  (isParagraph b = true -> isHeading b = false /\ isListItem b = false /\ isTable b = false) /\
  (isListItem b = true -> isHeading b = false /\ isParagraph b = false /\ isTable b = false) /\
  (isTable b = true -> isHeading b = false /\ isParagraph b = false /\ isListItem b = false).
Proof. destruct b; simpl; repeat split; intros; try reflexivity; discriminate. Qed.

(** An element that matches one tag selector matches no selector of
    another tag. *)
Lemma tag_selectors_exclusive (n : Node) (t u : str) :
  t <> u ->
  matchesSelector (ByTag t) n = true -> matchesSelector (ByTag u) n = false.
Proof.
  intros Hne. destruct n as [| |tag attrs cs]; simpl; try discriminate.
  intros H. apply str_eqb_eq in H. subst tag. now apply str_eqb_neq.
Qed.

Lemma heading_selector_tag (n : Node) :
  existsb (fun sel => matchesSelector sel n) headingTags = true ->
  exists t, In t [lit "h1"; lit "h2"; lit "h3"; lit "h4"; lit "h5"; lit "h6"] /\
            matchesSelector (ByTag t) n = true.
Proof.
  unfold headingTags. rewrite existsb_exists.
  intros [sel [Hin Hm]]. apply in_map_iff in Hin. destruct Hin as [t [<- Ht]].
  now exists t.
Qed.

Ltac str_neq :=
  let Hne := fresh "Hne" in
  intro Hne; vm_compute in Hne; discriminate Hne.

Ltac other_tag H :=
  match type of H with
  | matchesSelector (ByTag ?t) ?n = true =>
      repeat match goal with
      | |- context [matchesSelector (ByTag ?u) n] =>
          lazymatch u with
          | t => fail
          | _ => rewrite (tag_selectors_exclusive n t u ltac:(str_neq) H)
          end
      end
  end.

Lemma classify_heading (n : Node) :
  existsb (fun sel => matchesSelector sel n) headingTags = true ->
  classify n = headingOf n.
Proof. intros H. unfold classify. now rewrite H. Qed.

Lemma heading_not_tag (n : Node) (u : str) :
  ~ In u [lit "h1"; lit "h2"; lit "h3"; lit "h4"; lit "h5"; lit "h6"] ->
  matchesSelector (ByTag u) n = true ->
  existsb (fun sel => matchesSelector sel n) headingTags = false.
Proof.
  intros Hu Hm. destruct (existsb _ headingTags) eqn:E; [|reflexivity].
  destruct (heading_selector_tag n E) as [t [Ht Hmt]].
  assert (t <> u) by (intros ->; contradiction).
  rewrite (tag_selectors_exclusive n t u H Hmt) in Hm. discriminate.
Qed.

Ltac not_heading_tag :=
  let Hin := fresh "Hin" in
  simpl; intros Hin;
  repeat (destruct Hin as [Hin|Hin]; [vm_compute in Hin; discriminate Hin|]);
  exact Hin.

Lemma classify_paragraph (n : Node) :
  matchesSelector (ByTag (lit "p")) n = true -> classify n = paragraphOf n.
Proof.
  intros H. unfold classify.
  rewrite (heading_not_tag n (lit "p") ltac:(not_heading_tag) H). now rewrite H.
Qed.

Lemma classify_listItem (n : Node) :
  matchesSelector (ByTag (lit "li")) n = true -> classify n = listItemOf n.
Proof.
  intros H. unfold classify.
  rewrite (heading_not_tag n (lit "li") ltac:(not_heading_tag) H).
  other_tag H. now rewrite H.
Qed.

Lemma classify_table (n : Node) :
  matchesSelector (ByTag (lit "table")) n = true -> classify n = tableOf n.
Proof.
  intros H. unfold classify.
  rewrite (heading_not_tag n (lit "table") ltac:(not_heading_tag) H).
  other_tag H. now rewrite H.
Qed.

Lemma classify_kind (n : Node) (b : Block) :
  classify n = Some b ->
  (isHeading b = true /\ existsb (fun sel => matchesSelector sel n) headingTags = true) \/
  (isParagraph b = true /\ matchesSelector (ByTag (lit "p")) n = true) \/
  (isListItem b = true /\ matchesSelector (ByTag (lit "li")) n = true) \/
  (isTable b = true /\ matchesSelector (ByTag (lit "table")) n = true).
Proof.
  unfold classify.
  destruct (existsb _ headingTags) eqn:E1.
  { intros H. left. split; [exact (headingOf_kind n b H) | reflexivity]. }
  destruct (matchesSelector (ByTag (lit "p")) n) eqn:E2.
  { intros H. right. left. split; [exact (paragraphOf_kind n b H) | reflexivity]. }
  destruct (matchesSelector (ByTag (lit "li")) n) eqn:E3.
  { intros H. right. right. left. split; [exact (listItemOf_kind n b H) | reflexivity]. }
  destruct (matchesSelector (ByTag (lit "table")) n) eqn:E4.
  { intros H. right. right. right. split; [exact (tableOf_kind n b H) | reflexivity]. }
  discriminate.
Qed.

Lemma existsb_single (sel : Selector) (n : Node) :
  existsb (fun s => matchesSelector s n) [sel] = matchesSelector sel n.
Proof. simpl. apply orb_false_r. Qed.

(** The four passes leave the sections grouped by kind: the array is the
    document-order stream of the specification, regrouped. *)
Lemma collectSections_grouped (mainEl : Node) :
  collectSections mainEl =
    filter isHeading (sectionsInDocumentOrder mainEl) ++
    filter isParagraph (sectionsInDocumentOrder mainEl) ++
    filter isListItem (sectionsInDocumentOrder mainEl) ++
    filter isTable (sectionsInDocumentOrder mainEl).
Proof.
  unfold collectSections, sectionsInDocumentOrder, querySelectorAll.
  rewrite app_nil_l, <- !app_assoc. f_equal; [|f_equal; [|f_equal]].
  - apply keep_filter_kind.
    + exact classify_heading.
    + exact headingOf_kind.
    + intros n b Hs Hc. cbv beta in Hs.
      destruct (classify_kind n b Hc) as [[_ H]|[[H _]|[[H _]|[H _]]]];
        [congruence | | | ]; now apply kinds_disjoint in H.
  - apply keep_filter_kind.
    + intros n H. cbv beta in H. rewrite existsb_single in H. now apply classify_paragraph.
    + exact paragraphOf_kind.
    + intros n b Hs Hc. cbv beta in Hs. rewrite existsb_single in Hs.
      destruct (classify_kind n b Hc) as [[H _]|[[_ H]|[[H _]|[H _]]]];
        [ | congruence | | ]; now apply kinds_disjoint in H.
  - apply keep_filter_kind.
    + intros n H. cbv beta in H. rewrite existsb_single in H. now apply classify_listItem.
    + exact listItemOf_kind.
    + intros n b Hs Hc. cbv beta in Hs. rewrite existsb_single in Hs.
      destruct (classify_kind n b Hc) as [[H _]|[[H _]|[[_ H]|[H _]]]];
        [ | | congruence | ]; now apply kinds_disjoint in H.
  - apply keep_filter_kind.
    + intros n H. cbv beta in H. rewrite existsb_single in H. now apply classify_table.
    + exact tableOf_kind.
    + intros n b Hs Hc. cbv beta in Hs. rewrite existsb_single in Hs.
      destruct (classify_kind n b Hc) as [[H _]|[[H _]|[[H _]|[_ H]]]];
        [ | | | congruence]; now apply kinds_disjoint in H.
Qed.

(** ** Fetching *)

Lemma slice_prefix_length {A} (l : list A) (n : Z) :
  (0 <= n)%Z ->
  Z.of_nat (length (slice l 0 n)) = Z.min n (Z.of_nat (length l)).
Proof.
  intros Hn. unfold slice, clampIndex.
  replace (0 <? 0)%Z with false by reflexivity.
  destruct (n <? 0)%Z eqn:E; [apply Z.ltb_lt in E; lia|].
  replace (Z.min 0 (Z.of_nat (length l))) with 0%Z by lia.
  change (skipn (Z.to_nat 0) l) with l.
  rewrite length_firstn. lia.
Qed.


Lemma directFetch_success (pf : str -> Document) (ih : Node -> str) (bm : str)
      (w : World) (u : str) (maxLen : Z) (r : ExtractionResult) :
  directFetch pf ih bm w u maxLen = Returned r ->
  (exists status, r = Failure (lit "HTTP " ++ zToString status)) \/
  (exists kind text, r = successOf kind text maxLen).
Proof.
  unfold directFetch.
  destruct (negb (falsy _)).
  { intros [= <-]. right. eexists _, _. reflexivity. }
  destruct (direct w) as [e|ok status contentType]; [discriminate|].
  destruct (negb ok).
  { intros [= <-]. left. eexists. reflexivity. }
  destruct (includes _ _).
  - destruct (directPdf w) as [pages|e]; simpl; [|discriminate].
    destruct (pageTexts _ _ _) as [parts|e]; simpl; [|discriminate].
    intros [= <-]. right. eexists _, _. reflexivity.
  - destruct (directText w) as [html|e]; simpl; [|discriminate].
    intros [= <-]. right. eexists _, _. reflexivity.
Qed.





(** C3: what the code does at the failing input. A backend that answers
    success without a content makes [fetchDocumentContent] throw: the access
    to the content is outside the [try] block. The error leaves
    [buildRelatedDocumentsContext] as well, which awaits the fetch without
    catching. *)
Lemma backend_success_without_content_raises
      (pf : str -> Document) (ih : Node -> str) (bm : str) :
  let w := sampleWorld (BackendJson (JObj [(lit "success", JBool true)])) (Returned []) in
  let doc := mkItem (Some (lit "1")) (Some (lit "http://example.org/doc"))
                    (Some (lit "A document")) None None None None None in
  fetchDocumentContent pf ih bm w (Some (lit "http://example.org/doc"))
    (mkOptions None None) =
    Raised (TypeError "Cannot read properties of undefined") /\
  buildRelatedDocumentsContext pf ih bm (fun _ => w)
    (Some [mkMatch doc 50 SameRegulation]) (mkContextOptions (Some true) None) =
    Raised (TypeError "Cannot read properties of undefined").
Proof. split; vm_compute; reflexivity. Qed.

(** ** Related documents *)

(** A candidate is passed over as soon as neither it nor the target has a
    URL (or neither has an id): two absent values are strictly equal. *)
Lemma skipped_without_url (target other : Item) :
  url target = None -> url other = None -> skipped target other = true.
Proof.
  intros Ht Ho. unfold skipped. rewrite Ht, Ho. simpl. apply orb_true_r.
Qed.

(** C5: what the code does at the failing input. Two documents with
    distinct titles (and distinct ids) and no URL: the candidate is passed
    over as if it were the target, although it would score 84. *)
Lemma candidate_without_url_excluded (now : Z) (parseDate : str -> option Z) :
  let target := mkItem (Some (lit "a")) None
                  (Some (lit "Regulation (EU) 2024/1689 on AI")) None
                  None None None None in
  let other := mkItem (Some (lit "b")) None
                 (Some (lit "Commission Decision amending Regulation (EU) 2024/1689"))
                 (Some (lit "see Regulation 2024/1689")) None None None None in
  title target <> title other /\
  skipped target other = true /\
  scoreCandidate now parseDate target other = (84%Z, Some SameRegulation) /\
  findRelatedDocuments now parseDate (Some target) (Some [other]) None = [].
Proof.
  intros target other. split; [discriminate|].
  split; [reflexivity|]. split; vm_compute; reflexivity.
Qed.

Section Ranking.

Variable now : Z.
Variable parseDate : str -> option Z.

Local Open Scope Z_scope.

Lemma insertByScore_perm (x : RelatedMatch) (l : list RelatedMatch) :
  Permutation (x :: l) (insertByScore x l).
Proof.
  induction l as [|y l IH]; simpl; [apply Permutation_refl|].
  destruct (score x <? score y).
  - apply perm_trans with (y :: x :: l); [apply perm_swap | now apply perm_skip].
  - apply Permutation_refl.
Qed.

Lemma sortByScore_perm (l : list RelatedMatch) : Permutation l (sortByScore l).
Proof.
  induction l as [|x l IH]; simpl; [apply perm_nil|].
  apply perm_trans with (x :: sortByScore l);
    [now apply perm_skip | apply insertByScore_perm].
Qed.

Lemma insertByScore_sorted (x : RelatedMatch) (l : list RelatedMatch) :
  StronglySorted byScore l -> StronglySorted byScore (insertByScore x l).
Proof.
  induction 1 as [|y l Hs IH Hall]; simpl.
  - repeat constructor.
  - destruct (score x <? score y) eqn:E.
    + apply Z.ltb_lt in E. constructor; [assumption|].
      apply (Permutation_Forall (insertByScore_perm x l)).
      constructor; [unfold byScore; lia | assumption].
    + apply Z.ltb_ge in E. constructor; [now constructor|].
      constructor; [exact E|].
      eapply Forall_impl; [|exact Hall]. unfold byScore. intros; lia.
Qed.

Lemma sortByScore_sorted (l : list RelatedMatch) : StronglySorted byScore (sortByScore l).
Proof.
  induction l as [|x l IH]; simpl; [constructor | now apply insertByScore_sorted].
Qed.

(** Insertion leaves the entries of one score in their order. *)
Lemma insertByScore_stable (v : Z) (x : RelatedMatch) (l : list RelatedMatch) :
  filter (fun m => score m =? v) (insertByScore x l) =
  filter (fun m => score m =? v) (x :: l).
Proof.
  induction l as [|y l IH]; [reflexivity|].
  cbn [insertByScore]. destruct (score x <? score y) eqn:E; [|reflexivity].
  apply Z.ltb_lt in E. cbn [filter] in *. rewrite IH.
  destruct (score x =? v) eqn:Ex, (score y =? v) eqn:Ey; try reflexivity.
  apply Z.eqb_eq in Ex, Ey. lia.
Qed.

Lemma sortByScore_stable (v : Z) (l : list RelatedMatch) :
  filter (fun m => score m =? v) (sortByScore l) = filter (fun m => score m =? v) l.
Proof.
  induction l as [|x l IH]; [reflexivity|].
  cbn [sortByScore]. rewrite insertByScore_stable. cbn [filter]. now rewrite IH.
Qed.

Lemma slice_prefix {A} (l : list A) (n : Z) : exists k, slice l 0 n = firstn k l.
Proof.
  unfold slice. replace (clampIndex (Z.of_nat (length l)) 0) with 0%Z.
  - eexists. reflexivity.
  - unfold clampIndex. simpl. lia.
Qed.

Lemma slice_all {A} (l : list A) (n : Z) :
  Z.of_nat (length l) <= n -> slice l 0 n = l.
Proof.
  intros H. unfold slice.
  replace (clampIndex (Z.of_nat (length l)) 0) with 0%Z
    by (unfold clampIndex; simpl; lia).
  unfold clampIndex. destruct (n <? 0) eqn:E; [apply Z.ltb_lt in E; lia|].
  rewrite Z.min_r by lia. rewrite Z.sub_0_r, Nat2Z.id. apply firstn_all.
Qed.

Lemma firstn_In {A} (k : nat) (l : list A) (y : A) : In y (firstn k l) -> In y l.
Proof.
  intros H. rewrite <- (firstn_skipn k l). apply in_or_app. now left.
Qed.

Lemma firstn_sorted (k : nat) (l : list RelatedMatch) :
  StronglySorted byScore l -> StronglySorted byScore (firstn k l).
Proof.
  revert k. induction l as [|x l IH]; intros k H; destruct k; simpl; try constructor.
  - apply IH. now inversion H.
  - inversion H as [|? ? _ Hall]; subst.
    rewrite Forall_forall in *. intros y Hy. apply Hall.
    eapply firstn_In; eauto.
Qed.

Lemma firstn_Forall {A} (P : A -> Prop) (k : nat) (l : list A) :
  Forall P l -> Forall P (firstn k l).
Proof.
  rewrite !Forall_forall. intros H y Hy. apply H. eapply firstn_In; eauto.
Qed.

Lemma filter_firstn {A} (p : A -> bool) (k : nat) (l : list A) :
  exists j, filter p (firstn k l) = firstn j (filter p l).
Proof.
  revert k. induction l as [|x l IH]; intros k.
  - exists 0%nat. now destruct k.
  - destruct k as [|k]; [now exists 0%nat|].
    destruct (IH k) as [j Hj]. cbn [firstn filter].
    destruct (p x).
    + exists (S j). cbn [firstn]. now rewrite Hj.
    + now exists j.
Qed.

Lemma scoreAll_threshold (t : Item) (items : list Item) :
  Forall (fun m => 10 < score m) (scoreAll now parseDate t items).
Proof.
  apply Forall_forall. intros m Hm. unfold scoreAll in Hm.
  apply keep_In in Hm. destruct Hm as [o [_ Ho]].
  unfold candidateMatch in Ho. destruct (skipped t o); [discriminate|].
  destruct (scoreCandidate now parseDate t o) as [sc rel].
  destruct (10 <? sc) eqn:E; [|discriminate].
  injection Ho as <-. simpl. now apply Z.ltb_lt.
Qed.

(** C2, as the code has it. The result is sorted non-increasing by score,
    every entry scores more than 10, the entries of one score keep the
    order of their candidates in the corpus, and for a non-negative
    [maxResults] the result has at most [maxResults] entries. *)
Theorem findRelated_ranked (target : option Item) (corpus : option (list Item))
        (maxResults : option Z) :
  (0 <= effectiveMaxResults maxResults ->
   Z.of_nat (length (findRelatedDocuments now parseDate target corpus maxResults))
     <= effectiveMaxResults maxResults) /\
  StronglySorted byScore (findRelatedDocuments now parseDate target corpus maxResults) /\
  Forall (fun m => 10 < score m)
         (findRelatedDocuments now parseDate target corpus maxResults) /\
  (forall t items v,
     target = Some t -> corpus = Some items ->
     exists k,
       filter (fun m => score m =? v)
              (findRelatedDocuments now parseDate target corpus maxResults) =
       firstn k (filter (fun m => score m =? v)
                        (keep (candidateMatch now parseDate t) items))).
Proof.
  unfold findRelatedDocuments, effectiveMaxResults.
  set (limit := match maxResults with Some n => n | None => 10 end).
  destruct target as [t|];
    [|repeat split; [simpl; lia | constructor | constructor | discriminate]].
  destruct corpus as [[|o items]|];
    try (repeat split;
         [simpl; lia | constructor | constructor
          | intros t' items' v _ [= <-]; now exists 0%nat
          || (intros; discriminate)]).
  set (all := scoreAll now parseDate t (o :: items)).
  destruct (slice_prefix (sortByScore all) limit) as [k Hk].
  repeat split.
  - intros Hl. rewrite slice_prefix_length by assumption. lia.
  - rewrite Hk. apply firstn_sorted, sortByScore_sorted.
  - rewrite Hk. apply firstn_Forall.
    apply (Permutation_Forall (sortByScore_perm all)). apply scoreAll_threshold.
  - intros t' items' v [= <-] [= <-]. rewrite Hk.
    destruct (filter_firstn (fun m => score m =? v) k (sortByScore all)) as [j Hj].
    exists j. rewrite Hj, sortByScore_stable. reflexivity.
Qed.

End Ranking.

Lemma findRelated_ranked_witness :
  (0 <= effectiveMaxResults (Some 3))%Z /\
  (Z.of_nat (length (findRelatedDocuments 0 (fun _ => None) (Some sampleTarget)
                       (Some [sampleAmendment; sampleCorrigendum]) (Some 3%Z))) <= 3)%Z.
Proof.
  assert (H : (0 <= effectiveMaxResults (Some 3))%Z) by (vm_compute; discriminate).
  split; [exact H|].
  exact (proj1 (findRelated_ranked 0 (fun _ => None) (Some sampleTarget)
                 (Some [sampleAmendment; sampleCorrigendum]) (Some 3%Z)) H).
Defined.

(** C2 as stated fails for a negative [maxResults]: [slice(0, -1)] drops
    the last entry only, and one entry is more than -1 entries. *)
Lemma findRelated_negative_limit :
  map score (findRelatedDocuments 0 (fun _ => None) (Some sampleTarget)
               (Some [sampleAmendment; sampleCorrigendum]) (Some (-1)%Z)) = [158%Z] /\
  ~ (Z.of_nat (length (findRelatedDocuments 0 (fun _ => None) (Some sampleTarget)
                         (Some [sampleAmendment; sampleCorrigendum]) (Some (-1)%Z)))
     <= -1)%Z.
Proof. split; [vm_compute; reflexivity | vm_compute; intros H; apply H; reflexivity]. Qed.

Section SameInstrument.

Variable now : Z.
Variable parseDate : str -> option Z.

Local Open Scope Z_scope.

Lemma recencyBonus_nonneg (o : Item) : 0 <= recencyBonus now parseDate o.
Proof.
  unfold recencyBonus. destruct (orElse _ _) as [[|c d]|]; try lia.
  destruct (parseDate (c :: d)); [|lia].
  destruct (_ <? _); [lia|]. destruct (_ <? _); lia.
Qed.

Lemma countShared_nonneg (xs ys : list str) : 0 <= countShared xs ys.
Proof. unfold countShared. lia. Qed.

Lemma scoreCandidate_same_instrument (t o : Item) :
  falsy (celexOf t) = false -> falsy (celexOf o) = false ->
  slice (orEmpty (celexOf t)) 0 9 = slice (orEmpty (celexOf o)) 0 9 ->
  exists sc,
    scoreCandidate now parseDate t o =
      (sc, Some (if amendmentFires t o then Amendment else SameRegulation)) /\
    50 <= sc.
Proof.
  intros Ht Ho Hp. unfold scoreCandidate.
  rewrite Ht, Ho, Hp, str_eqb_refl. cbn [negb andb].
  pose proof (recencyBonus_nonneg o) as Hr.
  pose proof (countShared_nonneg (orEmpty (categories t) ++ orEmpty (tags t))
                (orEmpty (categories o) ++ orEmpty (tags o))) as Hc.
  pose proof (countShared_nonneg (longWords (itemTextOf t)) (longWords (itemTextOf o))) as Hw.
  destruct (someIncluded (extractLegalReferences (Some (itemTextOf t))) (itemTextOf o));
    destruct (someIncluded (extractLegalReferences (Some (itemTextOf o))) (itemTextOf t));
    destruct (amendmentFires t o);
    eexists; (split; [reflexivity | lia]).
Qed.

End SameInstrument.

(** C6 as stated fails: the two documents share the instrument prefix, yet
    the match is tagged amendment, because the candidate's title says
    amending and its reference occurs in the target's text. With
    [maxResults] 0 no match is returned at all. *)
Lemma same_instrument_tagged_amendment :
  slice (orEmpty (celexOf sampleTarget)) 0 9 = slice (orEmpty (celexOf sampleAmendment)) 0 9 /\
  celexOf sampleTarget = Some (lit "2024/1689") /\
  findRelatedDocuments 0 (fun _ => None) (Some sampleTarget) (Some [sampleAmendment]) None =
    [mkMatch sampleAmendment 124 Amendment] /\
  findRelatedDocuments 0 (fun _ => None) (Some sampleTarget) (Some [sampleAmendment])
    (Some 0%Z) = [].
Proof. repeat split; vm_compute; reflexivity. Qed.

(** ** The matcher *)

Section MatcherInversion.

Variable ci : bool.
Variable Q : nat -> str -> Prop.
Variable P : ascii -> Prop.

Local Abbreviation lang := (Regex.lang ci).
Local Abbreviation capsAll := (Regex.capsAll Q).
Local Abbreviation groupsIn := (Regex.groupsIn ci Q).
Local Abbreviation charsIn := (Regex.charsIn ci P).

Lemma capture_app (i : nat) (c1 c2 : caps) :
  capture i (c1 ++ c2) =
  match capture i c1 with Some v => Some v | None => capture i c2 end.
Proof.
  induction c1 as [|[j v] c1 IH]; simpl; [reflexivity|].
  destruct (Nat.eqb i j); [reflexivity | exact IH].
Qed.

Lemma capsAll_app (c1 c2 : caps) : capsAll c1 -> capsAll c2 -> capsAll (c1 ++ c2).
Proof.
  intros H1 H2 i v. rewrite capture_app.
  destruct (capture i c1) eqn:E.
  - intros [= <-]. now apply H1.
  - apply H2.
Qed.

Lemma firstn_consumed (pre s' : str) :
  firstn (length (pre ++ s') - length s') (pre ++ s') = pre.
Proof.
  rewrite length_app, Nat.add_sub.
  rewrite firstn_app, Nat.sub_diag, firstn_all, firstn_O. apply app_nil_r.
Qed.

(** When the matcher succeeds, it has split the input into a prefix in the
    language of the expression and a rest on which the continuation
    succeeds, with captures added in front of those it was given. *)
Lemma run_inv {A} (r : re) :
  forall (k : str -> caps -> option A) (s : str) (c : caps) (x : A),
    run ci r k s c = Some x ->
    exists pre s' ext,
      s = pre ++ s' /\ lang r pre /\ k s' (ext ++ c) = Some x /\
      (groupsIn r -> capsAll ext) /\
      (forall i, binds i r = true -> capture i ext <> None).
Proof.
  induction r as [|p|r1 IH1 r2 IH2|r1 IH1 r2 IH2|g r1 IH1|j r1 IH1]; intros k s c x H.
  - exists [], s, []. repeat split; try assumption; try constructor.
    + intros _ i v; discriminate.
    + discriminate.
  - simpl in H. destruct s as [|a s]; [discriminate|].
    destruct (clsMatch ci p a) eqn:E; [|discriminate].
    exists [a], s, []. repeat split; try assumption.
    + now constructor.
    + intros _ i v; discriminate.
    + discriminate.
  - simpl in H. apply IH1 in H.
    destruct H as [pre1 [s1 [e1 [Hs1 [Hl1 [Hk1 [Hc1 Hb1]]]]]]].
    apply IH2 in Hk1.
    destruct Hk1 as [pre2 [s2 [e2 [Hs2 [Hl2 [Hk2 [Hc2 Hb2]]]]]]].
    exists (pre1 ++ pre2), s2, (e2 ++ e1). repeat split.
    + now rewrite Hs1, Hs2, app_assoc.
    + now constructor.
    + now rewrite <- app_assoc.
    + intros [G1 G2]. apply capsAll_app; auto.
    + intros i Hi. simpl in Hi. rewrite capture_app.
      destruct (capture i e2) eqn:E; [discriminate|].
      destruct (binds i r2) eqn:B2; [exfalso; now apply (Hb2 i)|].
      rewrite orb_false_r in Hi. now apply Hb1.
  - simpl in H. destruct (run ci r1 k s c) as [y|] eqn:E.
    + injection H as ->. apply IH1 in E.
      destruct E as [pre [s' [e [Hs [Hl [Hk [Hc Hb]]]]]]].
      exists pre, s', e. repeat split; try assumption.
      * now apply LAltL.
      * intros [G1 _]. auto.
      * intros i Hi. simpl in Hi. apply andb_true_iff in Hi. now apply Hb.
    + apply IH2 in H.
      destruct H as [pre [s' [e [Hs [Hl [Hk [Hc Hb]]]]]]].
      exists pre, s', e. repeat split; try assumption.
      * now apply LAltR.
      * intros [_ G2]. auto.
      * intros i Hi. simpl in Hi. apply andb_true_iff in Hi. now apply Hb.
  - cbn [run] in H. remember (length s) as n eqn:En. clear En.
    revert s c x H. induction n as [|n IHn]; intros s c x H.
    + assert (Hk : k s c = Some x).
      { destruct g; [exact H|]. destruct (k s c); [exact H | discriminate]. }
      exists [], s, []. repeat split; try assumption.
      * constructor.
      * intros _ i v; discriminate.
      * discriminate.
    + match type of H with
      | (if g then match ?again with _ => _ end else _) = _ =>
          assert (Hcase : k s c = Some x \/ again = Some x)
      end.
      { destruct g.
        - match type of H with
          | match ?again with _ => _ end = _ => destruct again
          end; [right; exact H | left; exact H].
        - destruct (k s c); [left; exact H | right; exact H]. }
      clear H. destruct Hcase as [Hk|Hagain].
      * exists [], s, []. repeat split; try assumption.
        -- constructor.
        -- intros _ i v; discriminate.
        -- discriminate.
      * apply IH1 in Hagain.
        destruct Hagain as [pre1 [s1 [e1 [Hs1 [Hl1 [Hk1 [Hc1 Hb1]]]]]]].
        destruct (length s1 <? length s); [|discriminate].
        apply IHn in Hk1.
        destruct Hk1 as [pre2 [s2 [e2 [Hs2 [Hl2 [Hk2 [Hc2 Hb2]]]]]]].
        exists (pre1 ++ pre2), s2, (e2 ++ e1). repeat split.
        -- now rewrite Hs1, Hs2, app_assoc.
        -- now constructor.
        -- now rewrite <- app_assoc.
        -- intros G. apply capsAll_app; auto.
        -- discriminate.
  - simpl in H. apply IH1 in H.
    destruct H as [pre [s' [e [Hs [Hl [Hk [Hc Hb]]]]]]].
    rewrite Hs, firstn_consumed in Hk.
    exists pre, s', ((j, pre) :: e). repeat split.
    + assumption.
    + now constructor.
    + exact Hk.
    + intros [G1 G2] i v. simpl. destruct (Nat.eqb i j) eqn:E.
      * apply Nat.eqb_eq in E. subst i. intros [= <-]. now apply G1.
      * now apply Hc.
    + intros i Hi. simpl in *. destruct (Nat.eqb i j); [discriminate|].
      now apply Hb.
Qed.

Lemma lang_chars (r : re) (a : str) : lang r a -> charsIn r -> Forall P a.
Proof.
  induction 1; simpl; intros C.
  - constructor.
  - constructor; [now apply C | constructor].
  - apply Forall_app. split; [apply IHlang1 | apply IHlang2]; apply C.
  - apply IHlang, C.
  - apply IHlang, C.
  - constructor.
  - apply Forall_app. split; [apply IHlang1 | apply IHlang2]; assumption.
  - now apply IHlang.
Qed.

Lemma lang_nonempty (r : re) (a : str) : lang r a -> canBeEmpty r = false -> a <> [].
Proof.
  induction 1; simpl; intros E; try discriminate.
  - apply andb_false_iff in E. intros Hab. apply app_eq_nil in Hab.
    destruct Hab as [-> ->]. destruct E as [E|E]; [now apply IHlang1 | now apply IHlang2].
  - apply orb_false_iff in E. now apply IHlang.
  - apply orb_false_iff in E. now apply IHlang.
  - now apply IHlang.
Qed.

End MatcherInversion.

Section Searching.

Variable Q : nat -> str -> Prop.

Lemma matchHere_inv (p : pattern) (s rest : str) (c : caps) :
  matchHere p s = Some (rest, c) ->
  lang (ignoreCase p) (expr p) (firstn (length s - length rest) s) /\
  (groupsIn (ignoreCase p) Q (expr p) -> capsAll Q c) /\
  (forall j, binds j (expr p) = true -> capture j c <> None) /\
  length (firstn (length s - length rest) s) + length rest <= length s.
Proof.
  unfold matchHere. intros E. apply (run_inv _ Q) in E.
  destruct E as [pre [s' [ext [-> [Hl [Hk [Hc Hb]]]]]]].
  injection Hk as <- <-. rewrite app_nil_r, firstn_consumed.
  repeat split; try assumption. rewrite length_app. lia.
Qed.

(** A match found by the search: its text is in the language of the
    pattern, its captures satisfy what the groups guarantee, and what
    follows it is a suffix of the searched text. *)
Lemma searchFrom_inv (p : pattern) (s : str) :
  forall (i : nat) (f : found),
    searchFrom p s i = Some f ->
    lang (ignoreCase p) (expr p) (matched f) /\
    (groupsIn (ignoreCase p) Q (expr p) -> capsAll Q (groups f)) /\
    (forall j, binds j (expr p) = true -> capture j (groups f) <> None) /\
    length (matched f) + length (after f) <= length s.
Proof.
  induction s as [|a s IH]; intros i f H; cbn [searchFrom] in H.
  - destruct (matchHere p []) as [[rest c]|] eqn:E; [|discriminate].
    injection H as <-. exact (matchHere_inv _ _ _ _ E).
  - destruct (matchHere p (a :: s)) as [[rest c]|] eqn:E.
    + injection H as <-. exact (matchHere_inv _ _ _ _ E).
    + apply IH in H. destruct H as [Hl [Hc [Hb Hlen]]].
      repeat split; try assumption. simpl. lia.
Qed.

Lemma execAllFrom_inv (p : pattern) (fuel : nat) :
  forall (s : str) (i : nat) (f : found),
    In f (execAllFrom fuel p s i) ->
    (groupsIn (ignoreCase p) Q (expr p) -> capsAll Q (groups f)) /\
    (forall j, binds j (expr p) = true -> capture j (groups f) <> None).
Proof.
  induction fuel as [|fuel IH]; intros s i f H; [destruct H|].
  cbn [execAllFrom] in H.
  destruct (searchFrom p s i) as [g|] eqn:E; [|destruct H].
  destruct H as [<-|H].
  - apply searchFrom_inv in E. tauto.
  - destruct (length (after g) <? length s); [|destruct H].
    now apply IH in H.
Qed.

End Searching.

(** A pattern that cannot match the empty string always advances: the
    fuel of [execAll] and of [replaceAll] is enough, and the loops of the
    source over these patterns end. *)
Lemma execAll_progress (p : pattern) (s : str) (i : nat) (f : found) :
  canBeEmpty (expr p) = false ->
  searchFrom p s i = Some f ->
  length (after f) < length s.
Proof.
  intros He H. apply (searchFrom_inv (fun _ _ => True)) in H.
  destruct H as [Hl [_ [_ Hlen]]].
  apply lang_nonempty in Hl; [|assumption].
  destruct (matched f); [congruence | simpl in Hlen; lia].
Qed.

Lemma global_patterns_advance :
  forallb (fun p => negb (canBeEmpty (expr p)))
          (regPatterns ++ dirPatterns ++ map fst stripPatterns) = true.
Proof. vm_compute. reflexivity. Qed.

(** ** References inside the scorer *)

Ltac each_code_unit x :=
  destruct x as [[|] [|] [|] [|] [|] [|] [|] [|]].

Lemma digit_class (x : ascii) : clsMatch true isDigit x = true -> numChar x.
Proof.
  each_code_unit x; vm_compute; intros H;
    first [discriminate H | left; reflexivity].
Qed.

Lemma slash_class (x : ascii) :
  clsMatch true (fun y => if ascii_dec y "/"%char then true else false) x = true ->
  numChar x.
Proof.
  each_code_unit x; vm_compute; intros H;
    first [discriminate H | right; reflexivity].
Qed.

Lemma yearNumber_numeric (a : str) : lang true yearNumber a -> numeric a.
Proof.
  intros H. apply (lang_chars true numChar _ _ H).
  cbn. repeat split; first [exact digit_class | exact slash_class].
Qed.

Lemma numberYear_numeric (a : str) : lang true numberYear a -> numeric a.
Proof.
  intros H. apply (lang_chars true numChar _ _ H).
  cbn. repeat split; first [exact digit_class | exact slash_class].
Qed.

Lemma either_numeric (a : str) : lang true (Alt yearNumber numberYear) a -> numeric a.
Proof.
  intros H. inversion H; subst;
    [now apply yearNumber_numeric | now apply numberYear_numeric].
Qed.

(** The one group of every reference pattern takes part in every match and
    captures digits and slashes only. *)
Lemma reference_patterns_groups (p : pattern) :
  In p (regPatterns ++ dirPatterns) ->
  ignoreCase p = true /\
  groupsIn true (fun _ => numeric) (expr p) /\
  binds 1 (expr p) = true.
Proof.
  intros H. simpl in H.
  repeat (destruct H as [<-|H];
          [split; [reflexivity|]; split; [|reflexivity];
           cbn; repeat split;
           first [exact yearNumber_numeric | exact numberYear_numeric
                 | exact either_numeric] |]).
  destruct H.
Qed.

Lemma group1Text_numeric (p : pattern) (text : str) (f : found) :
  In p (regPatterns ++ dirPatterns) ->
  In f (execAll p text) ->
  numeric (group1Text f).
Proof.
  intros Hp Hf. destruct (reference_patterns_groups p Hp) as [Hci [Hg Hb]].
  apply (execAllFrom_inv (fun _ => numeric)) in Hf. destruct Hf as [Hc Hn].
  rewrite Hci in Hc. specialize (Hc Hg). specialize (Hn 1 Hb).
  unfold group1Text, group.
  destruct (capture 1 (groups f)) as [v|] eqn:E; [|congruence].
  exact (Hc 1 v E).
Qed.

Lemma addMatches_In (prefix text : str) (refs : list str) (p : pattern) (r : str) :
  In r (addMatches prefix text refs p) ->
  In r refs \/ exists f, In f (execAll p text) /\ r = prefix ++ group1Text f.
Proof.
  unfold addMatches. generalize (execAll p text) as fs.
  intros fs. revert refs. induction fs as [|f fs IH]; intros refs H; [now left|].
  cbn [fold_left] in H. apply IH in H. destruct H as [H|[g [Hg Hr]]].
  - apply setAdd_In in H. destruct H as [->|H]; [|now left].
    right. exists f. split; [now left | reflexivity].
  - right. exists g. split; [now right | assumption].
Qed.

Lemma addMatches_fold (prefix text : str) (ps : list pattern) :
  forall (refs : list str) (r : str),
    In r (fold_left (addMatches prefix text) ps refs) ->
    In r refs \/
    exists p f, In p ps /\ In f (execAll p text) /\ r = prefix ++ group1Text f.
Proof.
  induction ps as [|p ps IH]; intros refs r H; [now left|].
  cbn [fold_left] in H. apply IH in H. destruct H as [H|[q [f [Hq [Hf Hr]]]]].
  - apply addMatches_In in H. destruct H as [H|[f [Hf Hr]]]; [now left|].
    right. exists p, f. repeat split; [now left | assumption | assumption].
  - right. exists q, f. repeat split; [now right | assumption | assumption].
Qed.

(** Every reference the pattern loops produce is a number reference. *)
Lemma patternReferences_shape (text r : str) :
  In r (patternReferences text) -> numberReference r.
Proof.
  unfold patternReferences. intros H.
  apply addMatches_fold in H. destruct H as [H|[p [f [Hp [Hf Hr]]]]].
  - apply addMatches_fold in H. destruct H as [[]|[p [f [Hp [Hf Hr]]]]].
    exists (group1Text f). split; [now left|].
    apply (group1Text_numeric p text); [apply in_or_app; now left | assumption].
  - exists (group1Text f). split; [now right|].
    apply (group1Text_numeric p text); [apply in_or_app; now right | assumption].
Qed.

Lemma numeric_numericb (a : str) : numeric a -> numericb a = true.
Proof.
  induction 1 as [|x a Hx _ IH]; [reflexivity|].
  simpl. rewrite IH, andb_true_r. destruct Hx as [->| ->]; [reflexivity|].
  apply orb_true_r.
Qed.

Lemma startsWith_app (p post : str) : startsWith (p ++ post) p = true.
Proof. apply startsWith_spec. now exists post. Qed.

Lemma numberReference_numberReferenceb (r : str) :
  numberReference r -> numberReferenceb r = true.
Proof.
  intros [c [[->| ->] Hc]]; unfold numberReferenceb; apply orb_true_iff.
  - left. rewrite startsWith_app. simpl. now apply numeric_numericb.
  - right. rewrite startsWith_app. simpl. now apply numeric_numericb.
Qed.

Lemma expansions_not_number_references :
  forallb (fun e => negb (numberReferenceb (snd e))) acronyms = true.
Proof. vm_compute. reflexivity. Qed.

Lemma lowerChar_not_upper (a : ascii) : isUpper (lowerChar a) = false.
Proof. each_code_unit a; vm_compute; reflexivity. Qed.

Lemma includes_In (s p : str) (x : ascii) :
  includes s p = true -> In x p -> In x s.
Proof.
  intros H Hx. apply includes_spec in H. destruct H as [pre [post ->]].
  apply in_or_app. right. apply in_or_app. now left.
Qed.

Lemma acronyms_upper :
  forallb (fun e => existsb isUpper (fst e)) acronyms = true.
Proof. vm_compute. reflexivity. Qed.

(** No acronym of the table occurs in a lower-cased text: each holds an
    upper-case letter. *)
Lemma lowercase_has_no_acronym (text acronym expansion : str) :
  In (acronym, expansion) acronyms ->
  includes (toLowerCase text) acronym = false.
Proof.
  intros Hin. destruct (includes (toLowerCase text) acronym) eqn:E; [|reflexivity].
  pose proof acronyms_upper as Hu. rewrite forallb_forall in Hu.
  specialize (Hu _ Hin). simpl in Hu. apply existsb_exists in Hu.
  destruct Hu as [x [Hx Hup]].
  pose proof (includes_In _ _ x E Hx) as Hl. unfold toLowerCase in Hl.
  apply in_map_iff in Hl. destruct Hl as [y [<- _]].
  rewrite lowerChar_not_upper in Hup. discriminate.
Qed.

Lemma addAcronyms_none (table : list (str * str)) (text : str) (refs : list str) :
  (forall e, In e table -> includes text (fst e) = false) ->
  addAcronyms table text refs = refs.
Proof.
  unfold addAcronyms. revert refs.
  induction table as [|e table IH]; intros refs H; [reflexivity|].
  cbn [fold_left]. rewrite (H e (or_introl eq_refl)).
  apply IH. intros e' He'. apply H. now right.
Qed.

Lemma itemTextOf_nonempty (it : Item) : itemTextOf it <> [].
Proof.
  unfold itemTextOf, toLowerCase. rewrite map_app. intros H.
  apply app_eq_nil in H. destruct H as [_ H]. discriminate.
Qed.

(** The references of an item's text, as the scorer extracts them: the
    text is lower-cased, no acronym of the table can occur in it, and the
    references are those of the number patterns. *)
Lemma item_references_numbers_only (it : Item) :
  extractLegalReferences (Some (itemTextOf it)) = patternReferences (itemTextOf it) /\
  (forall acronym expansion,
     In (acronym, expansion) acronyms ->
     includes (itemTextOf it) acronym = false /\
     ~ In expansion (extractLegalReferences (Some (itemTextOf it)))) /\
  (forall r,
     In r (extractLegalReferences (Some (itemTextOf it))) -> numberReference r) /\
  (forall text,
     someIncluded (extractLegalReferences (Some (itemTextOf it))) text =
     someIncluded (patternReferences (itemTextOf it)) text).
Proof.
  assert (Hnone : forall acronym expansion,
             In (acronym, expansion) acronyms ->
             includes (itemTextOf it) acronym = false).
  { intros acronym expansion Hin. unfold itemTextOf.
    now apply lowercase_has_no_acronym with (expansion := expansion). }
  assert (Heq : extractLegalReferences (Some (itemTextOf it)) =
                patternReferences (itemTextOf it)).
  { unfold extractLegalReferences.
    destruct (itemTextOf it) as [|x t] eqn:E; [now apply itemTextOf_nonempty in E|].
    apply addAcronyms_none. intros [acronym expansion] He. simpl.
    now apply Hnone with (expansion := expansion). }
  split; [exact Heq|]. rewrite Heq. split; [|split].
  - intros acronym expansion Hin. split; [now apply Hnone with (expansion := expansion)|].
    intros Hr. apply patternReferences_shape, numberReference_numberReferenceb in Hr.
    pose proof expansions_not_number_references as Hx. rewrite forallb_forall in Hx.
    specialize (Hx _ Hin). simpl in Hx. rewrite Hr in Hx. discriminate.
  - intros r. apply patternReferences_shape.
  - reflexivity.
Qed.

(* ================================================================== *)
(** * Further properties of the module *)
(* ================================================================== *)

(** ** The proxy channel *)

Lemma http_message_truthy (status : Z) :
  truthy (JStr (lit "HTTP " ++ zToString status)) = true.
Proof. reflexivity. Qed.

Lemma failureObject_fields (error : JsVal) (flag : bool) :
  getProp (failureObject error flag) (lit "success") = Returned (JBool false) /\
  getProp (failureObject error flag) (lit "error") = Returned error /\
  getProp (failureObject error flag) (lit "isBackendError") =
    Returned (if flag then JBool true else JUndefined).
Proof. destruct flag; repeat split; reflexivity. Qed.

Lemma fetchViaBackend_failed (reply : BackendReply) :
  proxyFailed reply ->
  exists error flag,
    fetchViaBackend reply = failureObject error flag /\ truthy error = true.
Proof.
  intros Hf. destruct reply as [| |status body|data].
  - eexists _, _. split; reflexivity.
  - eexists _, _. split; reflexivity.
  - cbn [fetchViaBackend].
    destruct (getProp _ (lit "error")) as [e|x].
    + destruct (truthy e) eqn:E; eexists _, _; (split; [reflexivity|]);
        [exact E | apply http_message_truthy].
    + eexists _, _. split; reflexivity.
  - exfalso. now apply (Hf data).
Qed.

(** X1. Whatever goes wrong with the proxy (time-out, transport error,
    HTTP error with or without a JSON body), [fetchViaBackend] answers an
    object whose [success] is false and whose [error] is truthy. *)
Theorem proxy_failure_reported (reply : BackendReply) :
  proxyFailed reply ->
  getProp (fetchViaBackend reply) (lit "success") = Returned (JBool false) /\
  exists error,
    getProp (fetchViaBackend reply) (lit "error") = Returned error /\
    truthy error = true.
Proof.
  intros Hf. destruct (fetchViaBackend_failed reply Hf) as [error [flag [-> Ht]]].
  destruct (failureObject_fields error flag) as [H1 [H2 _]].
  split; [exact H1|]. now exists error.
Qed.

Lemma proxy_failure_reported_witness :
  proxyFailed (BackendStatus 502 None) /\
  getProp (fetchViaBackend (BackendStatus 502 None)) (lit "success") =
    Returned (JBool false).
Proof.
  assert (H : proxyFailed (BackendStatus 502 None)) by (intros data; discriminate).
  split; [exact H|].
  exact (proj1 (proxy_failure_reported (BackendStatus 502 None) H)).
Defined.

Section FetchProperties.

Variable parseFromString : str -> Document.
Variable innerHTML : Node -> str.
Variable bulletMarker : str.

Local Abbreviation fetch := (fetchDocumentContent parseFromString innerHTML bulletMarker).

(** With a failed proxy the call comes down to the [try] block and its
    [catch]. *)
Lemma fetch_after_proxy_failure (w : World) (x : ascii) (u : str) (options : Options) :
  proxyFailed (backend w) ->
  exists error flag,
    fetchViaBackend (backend w) = failureObject error flag /\
    fetch w (@Some str (x :: u)) options =
    match directFetch parseFromString innerHTML bulletMarker w (x :: u)
            (effectiveMaxLength options) with
    | Returned r => Returned r
    | Raised e =>
        Returned (Failure
          (if str_eqb (errorName e) (lit "AbortError") then lit "Request timeout"
           else if flag
                then lit "Direct fetch failed (" ++ message e ++
                     lit "). Start the backend server: python backend/server.py"
                else message e))
    end.
Proof.
  intros Hf. destruct (fetchViaBackend_failed _ Hf) as [error [flag [Hv Ht]]].
  exists error, flag. split; [exact Hv|].
  unfold fetchDocumentContent, effectiveMaxLength. cbn [falsy]. rewrite Hv.
  destruct (failureObject_fields error flag) as [H1 [_ H3]].
  rewrite H1. cbn [bind truthy]. rewrite H3. cbn [bind orEmpty].
  destruct (directFetch _ _ _ w (x :: u) _) as [r|e]; [reflexivity|].
  destruct (str_eqb (errorName e) (lit "AbortError")); [reflexivity|].
  destruct flag; reflexivity.
Qed.

Lemma getProp_raises (v : JsVal) (name : str) (e : JsError) :
  getProp v name = Raised e -> errorName e = lit "TypeError".
Proof. destruct v; simpl; intros [= <-]; reflexivity. Qed.

Lemma callSlice_raises (v : JsVal) (n : Z) (e : JsError) :
  callSlice v n = Raised e -> errorName e = lit "TypeError".
Proof. destruct v; simpl; intros [= <-]; reflexivity. Qed.

(** X2. [fetchDocumentContent] throws only when the proxy answered a JSON
    body, and then what it throws is a TypeError: a failure of the proxy and
    every failure of the direct channel come back as a result. *)
Theorem fetch_throws_only_on_proxy_json (w : World) (u : option str)
        (options : Options) (e : JsError) :
  fetch w u options = Raised e ->
  errorName e = lit "TypeError" /\ exists data, backend w = BackendJson data.
Proof.
  intros H. destruct (backend w) as [| |status body|data] eqn:Eb.
  4: { split; [|now exists data].
       unfold fetchDocumentContent in H. rewrite Eb in H. cbn [fetchViaBackend] in H.
       destruct (falsy u); [discriminate|].
       destruct (getProp data (lit "success")) as [sv|e1] eqn:E1; cbn [bind] in H;
         [|injection H as <-; exact (getProp_raises _ _ _ E1)].
       destruct (truthy sv).
       - destruct (getProp data (lit "content")) as [cv|e2] eqn:E2; cbn [bind] in H;
           [|injection H as <-; exact (getProp_raises _ _ _ E2)].
         destruct (callSlice cv _) as [sl|e3] eqn:E3; cbn [bind] in H;
           [|injection H as <-; exact (callSlice_raises _ _ _ E3)].
         destruct (getProp data (lit "type")) as [tv|e4] eqn:E4; cbn [bind] in H;
           [|injection H as <-; exact (getProp_raises _ _ _ E4)].
         destruct (getProp cv (lit "length")) as [lv|e5] eqn:E5; cbn [bind] in H;
           [|injection H as <-; exact (getProp_raises _ _ _ E5)].
         destruct (getProp data (lit "originalLength")) as [ov|e6] eqn:E6; cbn [bind] in H;
           [discriminate | injection H as <-; exact (getProp_raises _ _ _ E6)].
       - destruct (getProp data (lit "isBackendError")) as [bv|e7] eqn:E7; cbn [bind] in H;
           [|injection H as <-; exact (getProp_raises _ _ _ E7)].
         destruct (directFetch _ _ _ _ _ _); [discriminate|].
         destruct (str_eqb _ _); discriminate. }
  all: exfalso;
    destruct u as [[|x u]|];
    [ unfold fetchDocumentContent in H; cbn [falsy] in H; discriminate H
    | assert (Hf : proxyFailed (backend w)) by (rewrite Eb; intros data; discriminate);
      destruct (fetch_after_proxy_failure w x u options Hf) as [error [flag [_ Hr]]];
      pose proof (eq_trans (eq_sym Hr) H) as Hd;
      destruct (directFetch _ _ _ _ _ _); discriminate Hd
    | unfold fetchDocumentContent in H; cbn [falsy] in H; discriminate H ].
Qed.


(** X4. The error of a failed proxy call never reaches the result: an HTTP
    error of the proxy with a JSON object as body gives the same result as a
    time-out of the proxy. *)
Theorem proxy_error_not_surfaced (w : World) (u : option str) (options : Options)
        (status : Z) (fields : list (str * JsVal)) :
  backend w = BackendStatus status (Some (JObj fields)) ->
  fetch w u options = fetch (withBackend BackendTimeout w) u options.
Proof.
  intros Hb. unfold fetchDocumentContent. rewrite Hb.
  cbn [withBackend backend fetchViaBackend getProp].
  destruct (falsy u); [reflexivity|].
  destruct (failureObject_fields
              (if truthy (field (lit "error") fields) then field (lit "error") fields
               else JStr (lit "HTTP " ++ zToString status)) false) as [H1 [_ H3]].
  destruct (failureObject_fields (JStr (lit "Backend request timeout")) false)
    as [K1 [_ K3]].
  rewrite H1, K1. cbn [bind truthy]. rewrite H3, K3. cbn [bind].
  reflexivity.
Qed.

(** X5. A URL of PDF shape is read through the PDF reader when the proxy
    has failed: a non-empty text gives a successful result of type pdf on the
    direct channel, without any further request. *)
Theorem pdf_url_read_directly (w : World) (u : str) (options : Options) (text : str) :
  proxyFailed (backend w) ->
  isPdfUrl (Some u) = true ->
  extractPdfText (pdfAtUrl w) = Some text -> text <> [] ->
  fetch w (Some u) options =
    Returned (Success (JStr (slice text 0 (effectiveMaxLength options)))
                      (JStr (lit "pdf"))
                      (len text >? effectiveMaxLength options)%Z
                      (JNum (len text)) Direct).
Proof.
  intros Hf Hp Ht Hne.
  destruct u as [|x u]; [discriminate Hp|].
  destruct (fetch_after_proxy_failure w x u options Hf) as [error [flag [_ Hr]]].
  rewrite Hr. unfold directFetch. rewrite Hp, Ht.
  destruct text as [|c text]; [congruence|]. reflexivity.
Qed.

End FetchProperties.

Lemma fetch_throws_only_on_proxy_json_witness :
  let w := sampleWorld (BackendJson (JObj [(lit "success", JBool true)])) (Returned []) in
  fetchDocumentContent (fun _ => mkDocument (Text []) None) (fun _ => []) []
    w (Some (lit "http://example.org/doc")) (mkOptions None None) =
    Raised (TypeError "Cannot read properties of undefined") /\
  exists data, backend w = BackendJson data.
Proof.
  intros w.
  assert (H : fetchDocumentContent (fun _ => mkDocument (Text []) None) (fun _ => []) []
                w (Some (lit "http://example.org/doc")) (mkOptions None None) =
              Raised (TypeError "Cannot read properties of undefined"))
    by (vm_compute; reflexivity).
  split; [exact H|].
  exact (proj2 (fetch_throws_only_on_proxy_json _ _ _ _ _ _ _ H)).
Defined.


Lemma proxy_error_not_surfaced_witness :
  let w := sampleWorld (BackendStatus 500 (Some (JObj [(lit "error", JStr (lit "boom"))])))
                       (Returned (lit "<p>page</p>")) in
  backend w = BackendStatus 500 (Some (JObj [(lit "error", JStr (lit "boom"))])) /\
  fetchDocumentContent (fun _ => mkDocument (Text []) None) (fun _ => []) []
    w (Some (lit "http://example.org/doc")) (mkOptions None None) =
  fetchDocumentContent (fun _ => mkDocument (Text []) None) (fun _ => []) []
    (withBackend BackendTimeout w) (Some (lit "http://example.org/doc"))
    (mkOptions None None).
Proof.
  intros w. split; [reflexivity|].
  apply (proxy_error_not_surfaced _ _ _ w _ _ 500%Z [(lit "error", JStr (lit "boom"))]).
  reflexivity.
Defined.

Lemma pdf_url_read_directly_witness :
  proxyFailed (backend samplePdfWorld) /\
  isPdfUrl (Some (lit "http://example.org/Act.PDF")) = true /\
  extractPdfText (pdfAtUrl samplePdfWorld) =
    Some (lit "[Page 1]" ++ newline ++ lit "Hello PDF") /\
  fetchDocumentContent (fun _ => mkDocument (Text []) None) (fun _ => []) []
    samplePdfWorld (Some (lit "http://example.org/Act.PDF")) (mkOptions (Some 8%Z) None) =
    Returned (Success (JStr (lit "[Page 1]")) (JStr (lit "pdf")) true (JNum 18) Direct).
Proof.
  assert (H1 : proxyFailed (backend samplePdfWorld)) by (intros data; discriminate).
  assert (H2 : isPdfUrl (Some (lit "http://example.org/Act.PDF")) = true)
    by (vm_compute; reflexivity).
  assert (H3 : extractPdfText (pdfAtUrl samplePdfWorld) =
               Some (lit "[Page 1]" ++ newline ++ lit "Hello PDF"))
    by (vm_compute; reflexivity).
  split; [exact H1 | split; [exact H2 | split; [exact H3|]]].
  exact (pdf_url_read_directly (fun _ => mkDocument (Text []) None) (fun _ => []) []
           samplePdfWorld _ (mkOptions (Some 8%Z) None) _ H1 H2 H3
           ltac:(discriminate)).
Defined.

(** ** The PDF reader *)

Lemma firstn_min_length {A} (n : nat) (l : list A) :
  firstn (Nat.min (length l) n) l = firstn n l.
Proof.
  destruct (Nat.le_ge_cases (length l) n) as [H|H].
  - rewrite Nat.min_l by assumption. now rewrite firstn_all, firstn_all2.
  - now rewrite Nat.min_r.
Qed.

(** X6. [extractPdfText] reads the first 50 pages only: of a longer
    document, the result depends on those pages and on the page count,
    and a page beyond the fiftieth may even fail to be read. *)
Theorem pdf_text_page_cap (first rest1 rest2 : PdfDoc) :
  length first = 50 -> length rest1 = length rest2 ->
  extractPdfText (Returned (first ++ rest1)) = extractPdfText (Returned (first ++ rest2)).
Proof.
  intros H50 Hlen. unfold extractPdfText.
  rewrite !firstn_min_length, !length_app, Hlen.
  rewrite !firstn_app, H50, Nat.sub_diag, !firstn_O.
  rewrite <- H50, firstn_all. reflexivity.
Qed.

Lemma pdf_text_page_cap_witness :
  length fiftyPages = 50 /\
  extractPdfText (Returned (fiftyPages ++ [Returned [lit "last"]])) =
  extractPdfText (Returned (fiftyPages ++ [Raised (mkError (lit "Error") (lit "bad page"))])).
Proof.
  assert (H : length fiftyPages = 50) by reflexivity.
  split; [exact H|].
  apply (pdf_text_page_cap fiftyPages [Returned [lit "last"]]
           [Raised (mkError (lit "Error") (lit "bad page"))] H).
  reflexivity.
Defined.

Lemma pageTexts_raises (normalise : str -> str) (pages : PdfDoc) :
  forall i,
    (exists e, pageTexts normalise i pages = Raised e) <->
    (exists e, In (Raised e) pages).
Proof.
  induction pages as [|pg pages IH]; intros i; cbn [pageTexts].
  - split; intros [e H]; [discriminate | destruct H].
  - destruct pg as [items|e0]; cbn [bind].
    + destruct (pageTexts normalise (S i) pages) as [parts|e1] eqn:E; cbn [bind].
      * split; [intros [e H]; discriminate|].
        intros [e [H|H]]; [discriminate|].
        assert (Hx : exists e, pageTexts normalise (S i) pages = Raised e)
          by (apply IH; eauto).
        destruct Hx as [e' He']. congruence.
      * split; [|eauto]. intros _.
        assert (Hx : exists e, In (Raised e) pages) by (apply (IH (S i)); eauto).
        destruct Hx as [e' He']. exists e'. now right.
    + split; [|eauto]. intros _. exists e0. now left.
Qed.

(** X7. [extractPdfText] of an opened document is [null] exactly when
    reading one of its first 50 pages throws; otherwise it is a string. *)
Theorem pdf_text_null_iff (pages : PdfDoc) :
  extractPdfText (Returned pages) = None <->
  exists e, In (Raised e) (firstn 50 pages).
Proof.
  unfold extractPdfText. rewrite firstn_min_length.
  rewrite <- (pageTexts_raises collapseSpaces (firstn 50 pages) 1).
  destruct (pageTexts collapseSpaces 1 (firstn 50 pages)) as [parts|e].
  - split; [discriminate | intros [e H]; discriminate].
  - split; [eauto | reflexivity].
Qed.

Lemma pageTexts_blank (pages : PdfDoc) :
  Forall blankPage pages ->
  forall i, pageTexts collapseSpaces i pages = Returned [].
Proof.
  induction 1 as [|pg pages [items [-> Hb]] _ IH]; intros i; [reflexivity|].
  cbn [pageTexts bind]. rewrite IH. cbn [bind]. now rewrite Hb.
Qed.

(** X8. A document of at most 50 pages none of which has text gives the
    empty string, which [fetchDocumentContent] takes for no text at all. *)
Theorem pdf_text_of_blank_pages (pages : PdfDoc) :
  Forall blankPage pages -> length pages <= 50 ->
  extractPdfText (Returned pages) = Some [].
Proof.
  intros Hb Hlen. unfold extractPdfText.
  rewrite firstn_min_length, firstn_all2 by assumption.
  rewrite (pageTexts_blank pages Hb).
  replace (Nat.min (length pages) 50 <? length pages) with false; [reflexivity|].
  symmetry. apply Nat.ltb_ge. lia.
Qed.

Lemma pdf_text_of_blank_pages_witness :
  Forall blankPage [Returned []; Returned [lit "  "; lit " "]] /\
  length [Returned (@nil str); Returned [lit "  "; lit " "]] <= 50 /\
  extractPdfText (Returned [Returned []; Returned [lit "  "; lit " "]]) = Some [].
Proof.
  assert (H1 : Forall blankPage [Returned []; Returned [lit "  "; lit " "]]).
  { repeat constructor; eexists; (split; [reflexivity | vm_compute; reflexivity]). }
  assert (H2 : length [Returned (@nil str); Returned [lit "  "; lit " "]] <= 50)
    by (simpl; lia).
  split; [exact H1 | split; [exact H2|]].
  exact (pdf_text_of_blank_pages _ H1 H2).
Defined.

(** ** URLs of PDF shape *)

Lemma lowerChar_idempotent (a : ascii) : lowerChar (lowerChar a) = lowerChar a.
Proof. each_code_unit a; vm_compute; reflexivity. Qed.

Lemma toLowerCase_idempotent (s : str) : toLowerCase (toLowerCase s) = toLowerCase s.
Proof.
  unfold toLowerCase. rewrite map_map. apply map_ext. exact lowerChar_idempotent.
Qed.

(** X9. [isPdfUrl] ignores the case of the URL, and a URL that ends in
    .pdf in any case is of PDF shape. *)
Theorem isPdfUrl_ignores_case (u : str) :
  isPdfUrl (Some u) = isPdfUrl (Some (toLowerCase u)) /\
  forall pre ext, u = pre ++ ext -> toLowerCase ext = lit ".pdf" ->
                  isPdfUrl (Some u) = true.
Proof.
  split.
  - unfold isPdfUrl. cbn [orEmpty]. rewrite toLowerCase_idempotent.
    destruct u; reflexivity.
  - intros pre ext -> Hext. unfold isPdfUrl.
    assert (Hne : falsy (@Some str (pre ++ ext)) = false).
    { destruct pre; [|reflexivity]. destruct ext; [discriminate Hext | reflexivity]. }
    rewrite Hne. cbn [orEmpty]. unfold endsWith, toLowerCase.
    rewrite map_app, rev_app_distr. fold (toLowerCase ext). rewrite Hext.
    rewrite startsWith_app. reflexivity.
Qed.

Lemma isPdfUrl_ignores_case_witness :
  lit "http://example.org/Act.PDF" = lit "http://example.org/Act" ++ lit ".PDF" /\
  toLowerCase (lit ".PDF") = lit ".pdf" /\
  isPdfUrl (Some (lit "http://example.org/Act.PDF")) = true.
Proof.
  assert (H1 : lit "http://example.org/Act.PDF" = lit "http://example.org/Act" ++ lit ".PDF")
    by reflexivity.
  assert (H2 : toLowerCase (lit ".PDF") = lit ".pdf") by reflexivity.
  split; [exact H1 | split; [exact H2|]].
  exact (proj2 (isPdfUrl_ignores_case _) _ _ H1 H2).
Defined.

(** ** Trimming and white space *)

Lemma dropSpaces_split (s : str) :
  exists pre, s = pre ++ dropSpaces s /\ Forall (fun x => isSpace x = true) pre.
Proof.
  induction s as [|x s [pre [Hs Hp]]]; [now exists []|].
  cbn [dropSpaces]. destruct (isSpace x) eqn:E.
  - exists (x :: pre). split; [simpl; now rewrite <- Hs | now constructor].
  - now exists [].
Qed.

Lemma dropSpaces_head (s : str) (x : ascii) (r : str) :
  dropSpaces s = x :: r -> isSpace x = false.
Proof.
  induction s as [|y s IH]; [discriminate|].
  cbn [dropSpaces]. destruct (isSpace y) eqn:E; [exact IH|].
  intros [= <- _]. exact E.
Qed.

Lemma trim_infix (s : str) : exists pre post, s = pre ++ trim s ++ post.
Proof.
  unfold trim.
  destruct (dropSpaces_split s) as [pre [Hs _]].
  destruct (dropSpaces_split (rev (dropSpaces s))) as [post [Hr _]].
  exists pre, (rev post).
  rewrite <- rev_app_distr, <- Hr, rev_involutive. exact Hs.
Qed.

Lemma trim_trimmed (s : str) : trimmed (trim s).
Proof.
  unfold trim. split; intros x r H.
  - destruct (dropSpaces_split (rev (dropSpaces s))) as [pre [Hr _]].
    apply (f_equal (@rev ascii)) in H. rewrite rev_involutive in H. simpl in H.
    rewrite H in Hr. apply (f_equal (@rev ascii)) in Hr.
    rewrite rev_involutive, !rev_app_distr, rev_involutive in Hr. simpl in Hr.
    exact (dropSpaces_head _ _ _ Hr).
  - apply (f_equal (@rev ascii)) in H.
    rewrite rev_involutive, rev_app_distr in H. simpl in H.
    exact (dropSpaces_head _ _ _ H).
Qed.

Lemma singleSpaced_suffix (pre t : str) : singleSpaced (pre ++ t) -> singleSpaced t.
Proof. induction pre as [|x pre IH]; simpl; [auto | intros [_ H]; auto]. Qed.

Lemma singleSpaced_prefix (t post : str) : singleSpaced (t ++ post) -> singleSpaced t.
Proof.
  induction t as [|x t IH]; simpl; [auto|].
  intros [Hx Hr]. split; [|auto].
  intros E. destruct (Hx E) as [-> Hn]. split; [reflexivity|].
  destruct t; [reflexivity | exact Hn].
Qed.

Lemma singleSpaced_words (pre t : str) :
  Forall (fun x => isSpace x = false) pre -> singleSpaced t -> singleSpaced (pre ++ t).
Proof.
  induction 1 as [|x pre Hx _ IH]; intros Ht; simpl; [assumption|].
  split; [congruence | auto].
Qed.

(** The matcher on a run of white space: greedy, it takes all of it. *)
Lemma star_space_all (s : str) (c : caps) :
  run false (Star true space) (fun s' c' => Some (s', c')) s c = Some (dropSpaces s, c).
Proof.
  cbn [run]. remember (length s) as n eqn:En.
  assert (Hn : length s <= n) by lia. clear En.
  revert s c Hn. induction n as [|n IH]; intros s c Hn.
  - destruct s; [reflexivity | simpl in Hn; lia].
  - destruct s as [|x s]; [reflexivity|].
    cbn [run space dropSpaces].
    replace (clsMatch false isSpace x) with (isSpace x)
      by (unfold clsMatch; now rewrite orb_false_r).
    destruct (isSpace x) eqn:E; [|reflexivity].
    replace (length s <? length (x :: s)) with true
      by (symmetry; apply Nat.ltb_lt; simpl; lia).
    match goal with
    | |- match ?t with _ => _ end = _ =>
        assert (Hx : t = Some (dropSpaces s, c)) by (apply IH; simpl in Hn; lia);
        rewrite Hx
    end.
    reflexivity.
Qed.

Lemma spaceRun_here (s : str) :
  matchHere spaceRun s =
  match s with
  | x :: s' => if isSpace x then Some (dropSpaces s', []) else None
  | [] => None
  end.
Proof.
  unfold matchHere, spaceRun, Plus. cbn [ignoreCase expr].
  change (run false (Seq space (Star true space)) (fun s' c' => Some (s', c')) s [])
    with (run false space
            (fun s' c' => run false (Star true space) (fun s' c' => Some (s', c')) s' c')
            s []).
  destruct s as [|x s]; [reflexivity|].
  cbn [run space].
  replace (clsMatch false isSpace x) with (isSpace x)
    by (unfold clsMatch; now rewrite orb_false_r).
  destruct (isSpace x); [apply star_space_all | reflexivity].
Qed.

(** The first run of white space: what precedes it has none, and what
    follows it does not start with any. *)
Lemma spaceRun_search (s : str) :
  forall i f,
    searchFrom spaceRun s i = Some f ->
    exists pre,
      Forall (fun x => isSpace x = false) pre /\
      index f = i + length pre /\
      firstn (length pre) s = pre /\
      startsWithSpace (after f) = false /\
      length (after f) < length s.
Proof.
  induction s as [|x s IH]; intros i f H; cbn [searchFrom] in H;
    rewrite spaceRun_here in H; [discriminate|].
  destruct (isSpace x) eqn:E.
  - injection H as <-. exists []. cbn [index after length].
    split; [constructor|]. split; [lia|]. split; [reflexivity|]. split.
    + destruct (dropSpaces s) as [|y r] eqn:D; [reflexivity|].
      exact (dropSpaces_head _ _ _ D).
    + destruct (dropSpaces_split s) as [pre [Hs _]].
      apply (f_equal (@length ascii)) in Hs. rewrite length_app in Hs. simpl. lia.
  - apply IH in H. destruct H as [pre [Hp [Hi [Hf [Ha Hl]]]]].
    exists (x :: pre). repeat split.
    + now constructor.
    + simpl. lia.
    + simpl. now rewrite Hf.
    + exact Ha.
    + simpl. lia.
Qed.

Lemma spaceRun_none (s : str) :
  forall i, searchFrom spaceRun s i = None -> Forall (fun x => isSpace x = false) s.
Proof.
  induction s as [|x s IH]; intros i H; [constructor|].
  cbn [searchFrom] in H. rewrite spaceRun_here in H.
  destruct (isSpace x) eqn:E; [discriminate|].
  constructor; [exact E | exact (IH _ H)].
Qed.

Lemma singleSpaced_no_space (s : str) :
  Forall (fun x => isSpace x = false) s -> singleSpaced s.
Proof.
  intros H. rewrite <- (app_nil_r s). now apply singleSpaced_words.
Qed.

Lemma collapse_spaced (fuel : nat) :
  forall s,
    length s < fuel ->
    singleSpaced (replaceAllFrom fuel spaceRun (lit " ") s) /\
    (startsWithSpace s = false ->
     startsWithSpace (replaceAllFrom fuel spaceRun (lit " ") s) = false).
Proof.
  induction fuel as [|fuel IH]; intros s Hlen; [lia|].
  cbn [replaceAllFrom].
  destruct (searchFrom spaceRun s 0) as [f|] eqn:E.
  - destruct (spaceRun_search s 0 f E) as [pre [Hp [Hi [Hf [Ha Hl]]]]].
    simpl in Hi. rewrite Hi, Hf.
    replace (length (after f) <? length s) with true
      by (symmetry; now apply Nat.ltb_lt).
    destruct (IH (after f) ltac:(lia)) as [Hs Hh]. specialize (Hh Ha).
    split.
    + apply singleSpaced_words; [assumption|].
      change (lit " " ++ replaceAllFrom fuel spaceRun (lit " ") (after f))
        with (" "%char :: replaceAllFrom fuel spaceRun (lit " ") (after f)).
      cbn [singleSpaced]. split; [intros _; now split | assumption].
    + intros Hstart. destruct pre as [|y pre].
      * exfalso. destruct s as [|x s]; [simpl in Hl; lia|].
        cbn [searchFrom] in E. rewrite spaceRun_here in E.
        simpl in Hstart. rewrite Hstart in E.
        destruct (spaceRun_search s 1 f E) as [pre' [_ [Hi' _]]].
        simpl in Hi. lia.
      * simpl. now inversion Hp.
  - split; [apply singleSpaced_no_space; exact (spaceRun_none s 0 E) | auto].
Qed.

(** X10. The result of [stripHtml] is normalised: it has no white space at
    either end, and inside it the only white space is single blanks. *)
Theorem stripHtml_normalised (html : option str) :
  trimmed (stripHtml html) /\ singleSpaced (stripHtml html).
Proof.
  unfold stripHtml. split; [apply trim_trimmed|].
  match goal with
  | |- singleSpaced (trim ?t) =>
      destruct (trim_infix t) as [pre [post Ht]];
      assert (Hs : singleSpaced t); [|rewrite Ht in Hs;
        exact (singleSpaced_prefix _ _ (singleSpaced_suffix _ _ Hs))]
  end.
  unfold stripPatterns. cbn [fold_left fst snd].
  apply collapse_spaced. lia.
Qed.

Section MainContent.

Variable parseFromString : str -> Document.
Variable innerHTML : Node -> str.
Variable bulletMarker : str.

(** X11. Whatever the page and whichever path is taken (structured
    sections, tag-stripped fall back, or no body at all), the text
    [extractMainContent] returns has no white space at either end. *)
Theorem extractMainContent_trimmed (html : str) :
  trimmed (extractMainContent parseFromString innerHTML bulletMarker html).
Proof.
  unfold extractMainContent.
  destruct (mainElement (parseFromString html)) as [mainEl|].
  - apply trim_trimmed.
  - unfold stripHtml. apply trim_trimmed.
Qed.

End MainContent.

Lemma headingLevel_range (n : Node) :
  existsb (fun sel => matchesSelector sel n) headingTags = true ->
  1 <= headingLevel n <= 6.
Proof.
  intros H. apply heading_selector_tag in H. destruct H as [t [Ht Hm]].
  destruct n as [| |tag attrs cs]; try discriminate Hm.
  simpl in Hm. apply str_eqb_eq in Hm. subst tag.
  simpl in Ht.
  repeat (destruct Ht as [<-|Ht]; [vm_compute; split; repeat constructor|]).
  destruct Ht.
Qed.

(** X12. Every heading among the sections has a level from 1 to 6 and a
    non-empty text; the texts of headings, paragraphs and list items are
    trimmed, and those of paragraphs and list items are longer than 20 and
    10 code units. *)
Theorem sections_well_formed (mainEl : Node) (b : Block) :
  In b (collectSections mainEl) -> wellFormedBlock b.
Proof.
  unfold collectSections. rewrite app_nil_l, !in_app_iff, !keep_In.
  intros [[[[n [Hn H]]|[n [Hn H]]]|[n [Hn H]]]|[n [Hn H]]].
  - unfold querySelectorAll in Hn. apply filter_In in Hn. destruct Hn as [_ Hsel].
    unfold headingOf in H.
    destruct (trim (textContent n)) as [|c r] eqn:E; [discriminate|].
    injection H as <-. simpl. split; [now apply headingLevel_range|].
    split; [discriminate | rewrite <- E; apply trim_trimmed].
  - unfold paragraphOf in H.
    destruct (trim (textContent n)) as [|c r] eqn:E; [discriminate|].
    destruct (20 <? length (c :: r)) eqn:L; [|discriminate].
    injection H as <-. simpl. apply Nat.ltb_lt in L.
    split; [exact L | rewrite <- E; apply trim_trimmed].
  - unfold listItemOf in H.
    destruct (trim (textContent n)) as [|c r] eqn:E; [discriminate|].
    destruct (10 <? length (c :: r)) eqn:L; [|discriminate].
    injection H as <-. simpl. apply Nat.ltb_lt in L.
    split; [exact L | rewrite <- E; apply trim_trimmed].
  - unfold tableOf in H. destruct (keep rowOf _); [discriminate|].
    injection H as <-. exact I.
Qed.

Lemma sections_well_formed_witness :
  In (Heading 2 (lit "Scope and definitions")) (collectSections sampleBody) /\
  wellFormedBlock (Heading 2 (lit "Scope and definitions")).
Proof.
  assert (H : In (Heading 2 (lit "Scope and definitions")) (collectSections sampleBody))
    by (vm_compute; left; reflexivity).
  split; [exact H|].
  exact (sections_well_formed sampleBody _ H).
Defined.

(** ** Instrument ids and references *)

Lemma celex_groups (p : pattern) :
  In p celexPatterns ->
  groupsIn (ignoreCase p) (fun _ a => a <> []) (expr p).
Proof.
  intros H. simpl in H.
  repeat (destruct H as [<-|H];
          [cbn; repeat split;
           intros a Ha; apply (lang_nonempty _ _ _ Ha); reflexivity |]).
  destruct H.
Qed.

Lemma firstMatch_nonempty (ps : list pattern) (text v : str) :
  (forall p, In p ps -> groupsIn (ignoreCase p) (fun _ a => a <> []) (expr p)) ->
  firstMatch ps text = Some v -> v <> [].
Proof.
  induction ps as [|p ps IH]; intros Hg H; [discriminate|].
  cbn [firstMatch] in H. destruct (exec p text) as [f|] eqn:E.
  - unfold exec in E. apply (searchFrom_inv (fun _ a => a <> [])) in E.
    destruct E as [_ [Hc _]]. specialize (Hc (Hg p (or_introl eq_refl))).
    exact (Hc 1 v H).
  - apply IH; [|assumption]. intros q Hq. apply Hg. now right.
Qed.

(** X13. An instrument id that [extractCelexId] returns is never the empty
    string, so the truthiness tests of the scorer are tests of presence;
    an absent or empty text has no id. *)
Theorem extractCelexId_nonempty (text : option str) :
  (forall v, extractCelexId text = Some v -> v <> []) /\
  (falsy (extractCelexId text) = true <-> extractCelexId text = None) /\
  (falsy text = true -> extractCelexId text = None).
Proof.
  assert (Hne : forall v, extractCelexId text = Some v -> v <> []).
  { intros v H. destruct text as [[|x t]|]; try discriminate H.
    exact (firstMatch_nonempty celexPatterns _ v celex_groups H). }
  split; [exact Hne|]. split.
  - destruct (extractCelexId text) as [[|c v]|];
      [exfalso; now apply (Hne [])| |]; simpl; split; congruence.
  - destruct text as [[|x t]|]; simpl; congruence.
Qed.

Lemma setAdd_NoDup (x : str) (l : list str) : NoDup l -> NoDup (setAdd x l).
Proof.
  intros H. unfold setAdd. destruct (setHas x l) eqn:E; [assumption|].
  apply NoDup_app; [assumption | repeat constructor; intros [] |].
  intros y Hy [<-|[]]. apply setHas_In in Hy. congruence.
Qed.

Lemma addMatches_NoDup (prefix text : str) (p : pattern) (refs : list str) :
  NoDup refs -> NoDup (addMatches prefix text refs p).
Proof.
  unfold addMatches. generalize (execAll p text) as fs. intros fs. revert refs.
  induction fs as [|f fs IH]; intros refs H; [assumption|].
  cbn [fold_left]. apply IH. now apply setAdd_NoDup.
Qed.

Lemma patternReferences_NoDup (text : str) : NoDup (patternReferences text).
Proof.
  unfold patternReferences.
  assert (Hfold : forall prefix ps refs,
            NoDup refs -> NoDup (fold_left (addMatches prefix text) ps refs)).
  { intros prefix ps. induction ps as [|p ps IH]; intros refs H; [assumption|].
    cbn [fold_left]. apply IH. now apply addMatches_NoDup. }
  apply Hfold, Hfold. constructor.
Qed.

(** X14. [extractLegalReferences] returns every reference once: the result
    has no duplicates, however often a reference occurs in the text. *)
Theorem extractLegalReferences_NoDup (text : option str) :
  NoDup (extractLegalReferences text).
Proof.
  destruct text as [[|x t]|]; try constructor.
  unfold extractLegalReferences, addAcronyms.
  generalize (patternReferences_NoDup (x :: t)).
  generalize (patternReferences (x :: t)) as refs.
  induction acronyms as [|e table IH]; intros refs H; [assumption|].
  cbn [fold_left]. apply IH.
  destruct (includes (x :: t) (fst e)); [now apply setAdd_NoDup | assumption].
Qed.

Lemma addAcronyms_In (table : list (str * str)) (text : str) :
  forall refs e,
    In e (addAcronyms table text refs) ->
    In e refs \/ exists acronym, In (acronym, e) table /\ includes text acronym = true.
Proof.
  unfold addAcronyms.
  induction table as [|[a x] table IH]; intros refs e H; [now left|].
  cbn [fold_left fst snd] in H. apply IH in H.
  destruct H as [H|[acronym [Hin Hinc]]].
  - destruct (includes text a) eqn:E; [|now left].
    apply setAdd_In in H. destruct H as [->|H]; [|now left].
    right. exists a. split; [now left | assumption].
  - right. exists acronym. split; [now right | assumption].
Qed.

(** X15. [extractLegalReferences] invents nothing: every reference it
    returns is either a number reference (Regulation or Directive, a blank,
    then digits and slashes captured from the text) or the expansion of an
    acronym of the table that occurs in the text as it is written. *)
Theorem extractLegalReferences_sound (text : str) (e : str) :
  In e (extractLegalReferences (Some text)) ->
  numberReference e \/
  exists acronym, In (acronym, e) acronyms /\ includes text acronym = true.
Proof.
  destruct text as [|x t]; [intros []|].
  unfold extractLegalReferences. intros H. apply addAcronyms_In in H.
  destruct H as [H|H]; [left; now apply patternReferences_shape with (text := x :: t) | now right].
Qed.

Lemma extractLegalReferences_sound_witness :
  In (lit "Regulation 2016/679")
     (extractLegalReferences (Some (lit "see Regulation (EU) 2016/679"))) /\
  (numberReference (lit "Regulation 2016/679") \/
   exists acronym, In (acronym, lit "Regulation 2016/679") acronyms /\
                   includes (lit "see Regulation (EU) 2016/679") acronym = true).
Proof.
  assert (H : In (lit "Regulation 2016/679")
                 (extractLegalReferences (Some (lit "see Regulation (EU) 2016/679"))))
    by (vm_compute; left; reflexivity).
  split; [exact H|].
  exact (extractLegalReferences_sound _ _ H).
Defined.

(** X16. The [while] loops over the reference patterns end: no reference
    pattern matches the empty string, so every match leaves strictly less
    text to search. *)
Theorem reference_loops_advance (p : pattern) (text : str) (i : nat) (f : found) :
  In p (regPatterns ++ dirPatterns) ->
  searchFrom p text i = Some f ->
  matched f <> [] /\ length (after f) < length text.
Proof.
  intros Hp H.
  assert (He : canBeEmpty (expr p) = false).
  { simpl in Hp.
    repeat (destruct Hp as [<-|Hp]; [reflexivity|]). destruct Hp. }
  split; [|exact (execAll_progress p text i f He H)].
  apply (searchFrom_inv (fun _ _ => True)) in H. destruct H as [Hl _].
  exact (lang_nonempty _ _ _ Hl He).
Qed.

Lemma reference_loops_advance_witness :
  In (Pattern true (Seqs [Word "Directive"; Star true space; Group 1 yearNumber]))
     (regPatterns ++ dirPatterns) /\
  exists f,
    searchFrom (Pattern true (Seqs [Word "Directive"; Star true space; Group 1 yearNumber]))
               (lit "Directive 2002/58/EC") 0 = Some f /\
    length (after f) < length (lit "Directive 2002/58/EC").
Proof.
  assert (H1 : In (Pattern true (Seqs [Word "Directive"; Star true space; Group 1 yearNumber]))
                  (regPatterns ++ dirPatterns))
    by (simpl; tauto).
  split; [exact H1|].
  eexists. split; [vm_compute; reflexivity|].
  refine (proj2 (reference_loops_advance _ (lit "Directive 2002/58/EC") 0 _ H1 _)).
  vm_compute. reflexivity.
Defined.

(** ** The scorer *)

Section ScorerProperties.

Variable now : Z.
Variable parseDate : str -> option Z.

Local Open Scope Z_scope.

(** The score and the relationship of a candidate, from the conditions of
    the bonuses. *)
Lemma scoreCandidate_decomposed (t o : Item) :
  scoreCandidate now parseDate t o =
  ((if sameInstrument t o then 50 else 0) +
   (if refersTo t o then 30 else 0) +
   (if refersTo o t then 30 else 0) +
   (if amendmentFires t o then 40 else 0) +
   countShared (orEmpty (categories t) ++ orEmpty (tags t))
               (orEmpty (categories o) ++ orEmpty (tags o)) * 5 +
   Z.min (countShared (longWords (itemTextOf t)) (longWords (itemTextOf o)) * 2) 20 +
   recencyBonus now parseDate o,
   if amendmentFires t o then Some Amendment
   else if sameInstrument t o then Some SameRegulation
   else if refersTo t o then Some References
   else if refersTo o t then Some ReferencedBy
   else None).
Proof.
  unfold scoreCandidate, sameInstrument, refersTo.
  destruct (negb (falsy (celexOf t)) && negb (falsy (celexOf o))); cbn [andb];
    [destruct (str_eqb _ _)|];
    destruct (someIncluded (extractLegalReferences (Some (itemTextOf t))) (itemTextOf o));
    destruct (someIncluded (extractLegalReferences (Some (itemTextOf o))) (itemTextOf t));
    destruct (amendmentFires t o); reflexivity.
Qed.

(** X17. The relationship of a match follows a fixed precedence: amendment
    when the amendment rule fires, else same-regulation, else references,
    else referenced-by, and related when no relationship rule fired. *)
Theorem relationship_precedence (t o : Item) (m : RelatedMatch) :
  candidateMatch now parseDate t o = Some m ->
  relationship m =
    if amendmentFires t o then Amendment
    else if sameInstrument t o then SameRegulation
    else if refersTo t o then References
    else if refersTo o t then ReferencedBy
    else Related.
Proof.
  unfold candidateMatch. destruct (skipped t o); [discriminate|].
  rewrite scoreCandidate_decomposed.
  destruct (10 <? _); [|discriminate]. intros [= <-]. cbn [relationship].
  destruct (amendmentFires t o), (sameInstrument t o), (refersTo t o), (refersTo o t);
    reflexivity.
Qed.

Lemma amendment_implies_reference (t o : Item) :
  amendmentFires t o = true -> refersTo o t = true.
Proof.
  unfold amendmentFires, refersTo. intros H. apply existsb_exists in H.
  destruct H as [p [_ H]]. apply andb_true_iff in H. apply H.
Qed.

(** X18. The amendment rule never fires alone: it needs a reference of
    the candidate in the target's text, which the referenced-by bonus
    rewards too. A candidate tagged amendment that the identity check lets
    through is therefore always retained, with a score of at least 70. *)
Theorem amendment_scores_seventy (t o : Item) :
  amendmentFires t o = true -> skipped t o = false ->
  exists m,
    candidateMatch now parseDate t o = Some m /\
    item m = o /\ relationship m = Amendment /\ 70 <= score m.
Proof.
  intros Ha Hs. unfold candidateMatch. rewrite Hs, scoreCandidate_decomposed.
  rewrite Ha, (amendment_implies_reference t o Ha).
  pose proof (recencyBonus_nonneg now parseDate o) as Hr.
  pose proof (countShared_nonneg (orEmpty (categories t) ++ orEmpty (tags t))
                (orEmpty (categories o) ++ orEmpty (tags o))) as Hc.
  pose proof (countShared_nonneg (longWords (itemTextOf t)) (longWords (itemTextOf o))) as Hw.
  match goal with
  | |- context [10 <? ?sc] =>
      assert (H70 : 70 <= sc)
        by (destruct (sameInstrument t o), (refersTo t o); lia);
      replace (10 <? sc) with true by (symmetry; apply Z.ltb_lt; lia)
  end.
  eexists. split; [reflexivity|]. cbn [item relationship score].
  repeat split. exact H70.
Qed.

Lemma slice_prefix_In {A} (l : list A) (n : Z) (x : A) :
  In x (slice l 0 n) -> In x l.
Proof.
  destruct (slice_prefix l n) as [k ->]. apply firstn_In.
Qed.

(** X19. [findRelatedDocuments] returns nothing but candidates of the
    corpus that the identity check let through: an item with the target's
    id or the target's URL is never among the matches, and every match
    carries the entry computed for its candidate. *)
Theorem findRelated_from_corpus (t : Item) (items : list Item)
        (maxResults : option Z) (m : RelatedMatch) :
  In m (findRelatedDocuments now parseDate (Some t) (Some items) maxResults) ->
  In (item m) items /\
  strictEq (id (item m)) (id t) = false /\
  strictEq (url (item m)) (url t) = false /\
  candidateMatch now parseDate t (item m) = Some m.
Proof.
  unfold findRelatedDocuments. destruct items as [|x items]; [intros []|].
  intros H. apply slice_prefix_In in H.
  apply (Permutation_in _ (Permutation_sym (sortByScore_perm _))) in H.
  unfold scoreAll in H. apply keep_In in H. destruct H as [o [Ho Hm]].
  assert (Hitem : item m = o).
  { unfold candidateMatch in Hm. destruct (skipped t o); [discriminate|].
    destruct (scoreCandidate now parseDate t o) as [sc rel].
    destruct (10 <? sc); [|discriminate]. now injection Hm as <-. }
  rewrite Hitem. split; [assumption|].
  assert (Hsk : skipped t o = false).
  { unfold candidateMatch in Hm. destruct (skipped t o); [discriminate | reflexivity]. }
  unfold skipped in Hsk. apply orb_false_iff in Hsk.
  destruct Hsk as [H1 H2]. repeat split; assumption.
Qed.

Lemma keep_length {A B} (f : A -> option B) (l : list A) :
  (length (keep f l) <= length l)%nat.
Proof.
  induction l as [|a l IH]; simpl; [lia|]. destruct (f a); simpl; lia.
Qed.

(** X20. When [maxResults] is at least the size of the corpus, ranking
    loses nothing: the result is a rearrangement of all the retained
    candidates. *)
Theorem findRelated_keeps_all (t : Item) (items : list Item) (maxResults : option Z) :
  Z.of_nat (length items) <= effectiveMaxResults maxResults ->
  Permutation (keep (candidateMatch now parseDate t) items)
              (findRelatedDocuments now parseDate (Some t) (Some items) maxResults).
Proof.
  intros H. unfold findRelatedDocuments. fold (effectiveMaxResults maxResults).
  destruct items as [|x items]; [apply perm_nil|].
  unfold scoreAll. rewrite slice_all.
  - apply sortByScore_perm.
  - rewrite <- (Permutation_length (sortByScore_perm _)).
    pose proof (keep_length (candidateMatch now parseDate t) (x :: items)). lia.
Qed.

End ScorerProperties.

Lemma amendment_scores_seventy_witness :
  amendmentFires sampleTarget sampleAmendment = true /\
  skipped sampleTarget sampleAmendment = false /\
  exists m,
    candidateMatch 0 (fun _ => None) sampleTarget sampleAmendment = Some m /\
    item m = sampleAmendment /\ relationship m = Amendment /\ (70 <= score m)%Z.
Proof.
  assert (H1 : amendmentFires sampleTarget sampleAmendment = true)
    by (vm_compute; reflexivity).
  assert (H2 : skipped sampleTarget sampleAmendment = false)
    by (vm_compute; reflexivity).
  split; [exact H1 | split; [exact H2|]].
  exact (amendment_scores_seventy 0 (fun _ => None) _ _ H1 H2).
Defined.

Lemma findRelated_from_corpus_witness :
  In (mkMatch sampleAmendment 124 Amendment)
     (findRelatedDocuments 0 (fun _ => None) (Some sampleTarget)
        (Some [sampleTarget; sampleAmendment]) None) /\
  In sampleAmendment [sampleTarget; sampleAmendment].
Proof.
  assert (H : In (mkMatch sampleAmendment 124 Amendment)
                 (findRelatedDocuments 0 (fun _ => None) (Some sampleTarget)
                    (Some [sampleTarget; sampleAmendment]) None))
    by (vm_compute; left; reflexivity).
  split; [exact H|].
  exact (proj1 (findRelated_from_corpus 0 (fun _ => None) _ _ _ _ H)).
Defined.

Lemma findRelated_keeps_all_witness :
  (Z.of_nat (length [sampleAmendment; sampleCorrigendum]) <= effectiveMaxResults None)%Z /\
  Permutation
    (keep (candidateMatch 0 (fun _ => None) sampleTarget)
          [sampleAmendment; sampleCorrigendum])
    (findRelatedDocuments 0 (fun _ => None) (Some sampleTarget)
       (Some [sampleAmendment; sampleCorrigendum]) None).
Proof.
  assert (H : (Z.of_nat (length [sampleAmendment; sampleCorrigendum])
               <= effectiveMaxResults None)%Z) by (vm_compute; discriminate).
  split; [exact H|].
  exact (findRelated_keeps_all 0 (fun _ => None) _ _ None H).
Defined.

Lemma relationship_precedence_witness :
  candidateMatch 0 (fun _ => None) sampleTarget sampleAmendment =
    Some (mkMatch sampleAmendment 124 Amendment) /\
  relationship (mkMatch sampleAmendment 124 Amendment) =
    (if amendmentFires sampleTarget sampleAmendment then Amendment
     else if sameInstrument sampleTarget sampleAmendment then SameRegulation
     else if refersTo sampleTarget sampleAmendment then References
     else if refersTo sampleAmendment sampleTarget then ReferencedBy
     else Related).
Proof.
  assert (H : candidateMatch 0 (fun _ => None) sampleTarget sampleAmendment =
              Some (mkMatch sampleAmendment 124 Amendment))
    by (vm_compute; reflexivity).
  split; [exact H|].
  exact (relationship_precedence 0 (fun _ => None) _ _ _ H).
Defined.

(** ** The context builder *)

Section ContextProperties.

Variable parseFromString : str -> Document.
Variable innerHTML : Node -> str.
Variable bulletMarker : str.
Variable worldOf : nat -> World.

Local Abbreviation block :=
  (contextBlock parseFromString innerHTML bulletMarker worldOf).
Local Abbreviation blocks :=
  (contextBlocks parseFromString innerHTML bulletMarker worldOf).
Local Abbreviation build :=
  (buildRelatedDocumentsContext parseFromString innerHTML bulletMarker worldOf).

Lemma contextBlock_info (fetch : bool) (maxPerDoc : Z) (i : nat) (m : RelatedMatch)
      (d : DocInfo) (e : str) :
  block fetch maxPerDoc i m = Returned (d, e) ->
  docIndex d = i + 1 /\ docTitle d = title (item m) /\ docUrl d = url (item m) /\
  docRelationship d = relationship m /\
  (fetch = false -> docContent d = None).
Proof.
  unfold contextBlock.
  destruct (fetch && negb (falsy (url (item m)))) eqn:E.
  - destruct (fetchDocumentContent _ _ _ _ _ _) as [[err|content ty tr ol ch]|x];
      cbn [bind]; try discriminate.
    + intros [= <- _]. cbn. repeat split.
    + destruct (callSlice content maxPerDoc); cbn [bind]; [|discriminate].
      intros [= <- _]. cbn. repeat split.
      intros Hf. rewrite Hf in E. discriminate E.
  - intros [= <- _]. cbn. repeat split.
Qed.

Lemma contextBlocks_mirror (fetch : bool) (maxPerDoc : Z) (ms : list RelatedMatch) :
  (forall i m, In m ms -> exists b, block fetch maxPerDoc i m = Returned b) ->
  forall i,
    exists bs,
      blocks fetch maxPerDoc i ms = Returned bs /\
      map docIndex (map fst bs) = seq (i + 1) (length ms) /\
      map docTitle (map fst bs) = map (fun m => title (item m)) ms /\
      map docUrl (map fst bs) = map (fun m => url (item m)) ms /\
      map docRelationship (map fst bs) = map relationship ms /\
      (fetch = false -> Forall (fun d => docContent d = None) (map fst bs)).
Proof.
  induction ms as [|m ms IH]; intros Hall i.
  - exists []. repeat split. intros _. constructor.
  - destruct (Hall i m (or_introl eq_refl)) as [[d e] Hb].
    destruct (IH (fun j x Hx => Hall j x (or_intror Hx)) (S i))
      as [bs [Hbs [H1 [H2 [H3 [H4 H5]]]]]].
    exists ((d, e) :: bs). cbn [contextBlocks]. rewrite Hb. cbn [bind].
    rewrite Hbs. cbn [bind].
    destruct (contextBlock_info _ _ _ _ _ _ Hb) as [K1 [K2 [K3 [K4 K5]]]].
    cbn [map fst length seq]. rewrite K1, K2, K3, K4, H2, H3, H4.
    replace (S i + 1) with (S (i + 1)) in H1 by lia. rewrite H1.
    repeat split. intros Hf. constructor; [now apply K5 | now apply H5].
Qed.

Lemma build_mirrors (ms : list RelatedMatch) (options : ContextOptions) :
  let fetch := match fetchContent options with Some b => b | None => false end in
  let maxPerDoc := match maxContentPerDoc options with Some n => n | None => 5000%Z end in
  (forall i m, In m ms -> exists b, block fetch maxPerDoc i m = Returned b) ->
  exists ctx,
    build (Some ms) options = Returned ctx /\
    mirrors (documents ctx) ms /\
    (fetch = false -> Forall (fun d => docContent d = None) (documents ctx)).
Proof.
  intros fetch maxPerDoc Hall. unfold buildRelatedDocumentsContext.
  fold fetch. fold maxPerDoc.
  destruct ms as [|m ms].
  - eexists. split; [reflexivity|]. split; [repeat split|]. intros _. constructor.
  - destruct (contextBlocks_mirror fetch maxPerDoc (m :: ms) Hall 0)
      as [bs [Hbs [H1 [H2 [H3 [H4 H5]]]]]].
    rewrite Hbs. cbn [bind]. eexists. split; [reflexivity|].
    cbn [documents]. split; [repeat split; assumption | assumption].
Qed.

(** X21. Without [fetchContent] the context builder makes no request and
    always returns: one document per match, numbered from 1 in the order
    of the matches, with the title, URL and relationship of its match and
    no content. *)
Theorem context_without_fetch (ms : list RelatedMatch) (options : ContextOptions) :
  fetchContent options = None \/ fetchContent options = Some false ->
  exists ctx,
    build (Some ms) options = Returned ctx /\
    mirrors (documents ctx) ms /\
    Forall (fun d => docContent d = None) (documents ctx).
Proof.
  intros Hf.
  assert (Hfetch : match fetchContent options with Some b => b | None => false end = false)
    by (destruct Hf as [-> | ->]; reflexivity).
  destruct (build_mirrors ms options) as [ctx [Hb [Hm Hc]]].
  - intros i m _. rewrite Hfetch. unfold contextBlock. cbn [andb]. eauto.
  - exists ctx. split; [assumption|]. split; [assumption | now apply Hc].
Qed.

(** X22. With [fetchContent], a document whose fetch fails does not abort
    the batch as long as the proxy itself has failed for every request
    (so that no malformed proxy answer can throw): the builder returns one
    document per match, in order; the failed ones lack their content only. *)
Theorem context_survives_failed_fetches (ms : list RelatedMatch)
        (options : ContextOptions) :
  (forall i, proxyFailed (backend (worldOf i))) ->
  exists ctx,
    build (Some ms) options = Returned ctx /\
    mirrors (documents ctx) ms.
Proof.
  intros Hp.
  destruct (build_mirrors ms options) as [ctx [Hb [Hm _]]].
  - intros i m _. unfold contextBlock.
    destruct (_ && negb (falsy (url (item m)))) eqn:E; [|eauto].
    destruct (url (item m)) as [[|x u]|] eqn:Eu;
      try (rewrite andb_false_r in E; discriminate E).
    destruct (fetch_after_proxy_failure parseFromString innerHTML bulletMarker
                (worldOf i) x u
                (mkOptions
                   (Some match maxContentPerDoc options with
                         | Some n => n
                         | None => 5000%Z
                         end) None) (Hp i)) as [error [flag [_ Hr]]].
    rewrite Hr.
    destruct (directFetch _ _ _ _ _ _) as [r|e] eqn:Ed; cbn [bind]; [|eauto].
    destruct (directFetch_success _ _ _ _ _ _ _ Ed) as [[status ->]|[kind [text ->]]];
      [eauto|].
    unfold successOf. cbn [callSlice bind]. eauto.
  - exists ctx. split; assumption.
Qed.

End ContextProperties.

Lemma context_without_fetch_witness :
  let ms := [mkMatch sampleCorrigendum 158 Amendment; mkMatch sampleAmendment 124 Amendment] in
  (fetchContent (mkContextOptions None None) = None \/
   fetchContent (mkContextOptions None None) = Some false) /\
  exists ctx,
    buildRelatedDocumentsContext (fun _ => mkDocument (Text []) None) (fun _ => []) []
      (fun _ => samplePdfWorld) (Some ms) (mkContextOptions None None) = Returned ctx /\
    mirrors (documents ctx) ms /\
    Forall (fun d => docContent d = None) (documents ctx).
Proof.
  intros ms.
  assert (H : fetchContent (mkContextOptions None None) = None \/
              fetchContent (mkContextOptions None None) = Some false)
    by (left; reflexivity).
  split; [exact H|].
  exact (context_without_fetch (fun _ => mkDocument (Text []) None) (fun _ => []) []
           (fun _ => samplePdfWorld) ms (mkContextOptions None None) H).
Defined.

Lemma context_survives_failed_fetches_witness :
  let ms := [mkMatch sampleCorrigendum 158 Amendment; mkMatch sampleAmendment 124 Amendment] in
  (forall i : nat, proxyFailed (backend ((fun _ => samplePdfWorld) i))) /\
  exists ctx,
    buildRelatedDocumentsContext (fun _ => mkDocument (Text []) None) (fun _ => []) []
      (fun _ => samplePdfWorld) (Some ms) (mkContextOptions (Some true) None) =
      Returned ctx /\
    mirrors (documents ctx) ms.
Proof.
  intros ms.
  assert (H : forall i : nat, proxyFailed (backend ((fun _ => samplePdfWorld) i)))
    by (intros i data; discriminate).
  split; [exact H|].
  exact (context_survives_failed_fetches (fun _ => mkDocument (Text []) None)
           (fun _ => []) [] (fun _ => samplePdfWorld) ms
           (mkContextOptions (Some true) None) H).
Defined.

(** ** The direct channel *)

Section DirectChannel.

Variable parseFromString : str -> Document.
Variable innerHTML : Node -> str.
Variable bulletMarker : str.

Local Abbreviation fetch := (fetchDocumentContent parseFromString innerHTML bulletMarker).

(** X23. The declared media type decides: a response declared as
    application/pdf is read as a PDF although its URL is not of PDF shape,
    with the texts of its first 50 pages joined by blank lines. *)
Theorem declared_pdf_read_as_pdf (w : World) (u : str) (options : Options)
        (status : Z) (contentType : str) (pages : PdfDoc) (parts : list str) :
  proxyFailed (backend w) ->
  u <> [] -> isPdfUrl (Some u) = false ->
  direct w = DirectResponse true status (Some contentType) ->
  includes contentType (lit "application/pdf") = true ->
  directPdf w = Returned pages ->
  pageTexts (fun t => t) 1 (firstn 50 pages) = Returned parts ->
  fetch w (Some u) options =
    Returned (successOf "pdf" (join (newline ++ newline) parts)
                        (effectiveMaxLength options)).
Proof.
  intros Hf Hne Hp Hd Hc Hpdf Hparts.
  destruct u as [|x u]; [congruence|].
  destruct (fetch_after_proxy_failure parseFromString innerHTML bulletMarker
              w x u options Hf) as [error [flag [_ Hr]]].
  rewrite Hr. unfold directFetch. rewrite Hp, Hd. cbn [falsy negb orEmpty].
  rewrite Hc, Hpdf. cbn [bind]. rewrite firstn_min_length, Hparts. reflexivity.
Qed.

End DirectChannel.

Lemma declared_pdf_read_as_pdf_witness :
  proxyFailed (backend sampleDeclaredPdfWorld) /\
  isPdfUrl (Some (lit "http://example.org/act?id=7")) = false /\
  includes (lit "application/pdf; charset=binary") (lit "application/pdf") = true /\
  fetchDocumentContent (fun _ => mkDocument (Text []) None) (fun _ => []) []
    sampleDeclaredPdfWorld (Some (lit "http://example.org/act?id=7"))
    (mkOptions None None) =
    Returned (successOf "pdf"
                (join (newline ++ newline) [lit "[Page 1]" ++ newline ++ lit "Article 1"])
                (effectiveMaxLength (mkOptions None None))).
Proof.
  assert (H1 : proxyFailed (backend sampleDeclaredPdfWorld))
    by (intros data; discriminate).
  assert (H2 : isPdfUrl (Some (lit "http://example.org/act?id=7")) = false)
    by (vm_compute; reflexivity).
  assert (H3 : includes (lit "application/pdf; charset=binary") (lit "application/pdf") = true)
    by (vm_compute; reflexivity).
  split; [exact H1 | split; [exact H2 | split; [exact H3|]]].
  apply (declared_pdf_read_as_pdf (fun _ => mkDocument (Text []) None) (fun _ => []) []
           sampleDeclaredPdfWorld (lit "http://example.org/act?id=7")
           (mkOptions None None) 200%Z (lit "application/pdf; charset=binary")
           [Returned [lit "Article"; lit "1"]; Returned []]
           [lit "[Page 1]" ++ newline ++ lit "Article 1"] H1).
  - discriminate.
  - exact H2.
  - reflexivity.
  - exact H3.
  - reflexivity.
  - vm_compute. reflexivity.
Defined.

(* ================================================================== *)
(** * The output stream, the instrument id, the ranking and the bonuses *)
(* ================================================================== *)

(** ** The output stream of the main-content extractor *)

Lemma renderSections_flat (bulletMarker : str) (sections : list Block) :
  renderSections bulletMarker sections = flat_map (renderBlock bulletMarker) sections.
Proof.
  unfold renderSections.
  assert (H : forall acc,
             fold_left (fun result b => result ++ renderBlock bulletMarker b) sections acc =
             acc ++ flat_map (renderBlock bulletMarker) sections).
  { induction sections as [|b sections IH]; intros acc; cbn [fold_left flat_map].
    - now rewrite app_nil_r.
    - now rewrite IH, app_assoc. }
  exact (H []).
Qed.

Section OutputStream.

Variable parseFromString : str -> Document.
Variable innerHTML : Node -> str.
Variable bulletMarker : str.

(** C4, as the code has it. When the structured text of the main element
    reaches 200 code units after trimming, the output of the extractor is
    that text, trimmed: the rendering of all headings, then all paragraphs,
    then all list items, then all tables, each kind in document order. When
    it does not, the output is the tag-stripped markup of the main element
    instead. *)
Theorem output_grouped_by_kind (html : str) (mainEl : Node) :
  mainElement (parseFromString html) = Some mainEl ->
  (200 <= length (trim (flat_map (renderBlock bulletMarker) (groupedSections mainEl))) ->
   extractMainContent parseFromString innerHTML bulletMarker html =
     trim (flat_map (renderBlock bulletMarker) (groupedSections mainEl))) /\
  (length (trim (flat_map (renderBlock bulletMarker) (groupedSections mainEl))) < 200 ->
   extractMainContent parseFromString innerHTML bulletMarker html =
     stripHtml (Some (innerHTML mainEl))).
Proof.
  intros Hmain. unfold extractMainContent. rewrite Hmain.
  rewrite renderSections_flat, collectSections_grouped.
  fold (groupedSections mainEl).
  split; intros H.
  - replace (length (trim (flat_map (renderBlock bulletMarker) (groupedSections mainEl)))
             <? 200) with false by (symmetry; apply Nat.ltb_ge; exact H).
    reflexivity.
  - replace (length (trim (flat_map (renderBlock bulletMarker) (groupedSections mainEl)))
             <? 200) with true by (symmetry; apply Nat.ltb_lt; exact H).
    unfold stripHtml.
    match goal with
    | |- trim (trim ?t) = trim ?t =>
        generalize (trim_trimmed t); generalize (trim t)
    end.
    intros r [Hfirst Hlast]. unfold trim.
    assert (Hd : forall q : str,
               (forall x rest, q = x :: rest -> isSpace x = false) -> dropSpaces q = q).
    { intros q Hq. destruct q as [|x q]; [reflexivity|].
      cbn [dropSpaces]. now rewrite (Hq x q eq_refl). }
    rewrite (Hd r Hfirst). rewrite Hd; [apply rev_involutive|].
    intros x rest Hx. apply (Hlast x (rev rest)).
    rewrite <- (rev_involutive r), Hx. reflexivity.
Qed.

End OutputStream.

Lemma output_grouped_by_kind_witness :
  mainElement ((fun _ => sampleLongDocument) sampleLongHtml) = Some sampleLongBody /\
  200 <= length (trim (flat_map (renderBlock []) (groupedSections sampleLongBody))) /\
  extractMainContent (fun _ => sampleLongDocument) (fun _ => []) [] sampleLongHtml =
    trim (flat_map (renderBlock []) (groupedSections sampleLongBody)).
Proof.
  assert (H1 : mainElement ((fun _ => sampleLongDocument) sampleLongHtml) =
               Some sampleLongBody) by (vm_compute; reflexivity).
  assert (H2 : 200 <= length (trim (flat_map (renderBlock []) (groupedSections sampleLongBody)))).
  { apply Nat.leb_le. vm_compute. reflexivity. }
  split; [exact H1 | split; [exact H2|]].
  exact (proj1 (output_grouped_by_kind (fun _ => sampleLongDocument) (fun _ => []) []
                  sampleLongHtml sampleLongBody H1) H2).
Defined.

(** C4 as stated fails on the output stream: the paragraph precedes the
    heading in the document, the structured text is long enough to be the
    output, and in the output the heading comes first. *)
Lemma output_not_in_document_order :
  descendants sampleLongBody =
    [Elem (lit "p") [] [Text sampleParagraphText];
     Elem (lit "h2") [] [Text sampleHeadingText]] /\
  sectionsInDocumentOrder sampleLongBody =
    [Paragraph sampleParagraphText; Heading 2 sampleHeadingText] /\
  extractMainContent (fun _ => sampleLongDocument) (fun _ => []) [] sampleLongHtml =
    lit "## " ++ sampleHeadingText ++ newline ++ newline ++ sampleParagraphText /\
  extractMainContent (fun _ => sampleLongDocument) (fun _ => []) [] sampleLongHtml <>
    trim (flat_map (renderBlock []) (sectionsInDocumentOrder sampleLongBody)).
Proof.
  split; [vm_compute; reflexivity|]. split; [vm_compute; reflexivity|].
  split; [vm_compute; reflexivity|].
  vm_compute. discriminate.
Qed.

(** ** The priority of the instrument-id patterns *)

(** Whenever one of the three patterns matches, its group has captured. *)
Lemma celex_match_captures (p : pattern) (text : str) (f : found) :
  In p celexPatterns -> exec p text = Some f -> exists v, group 1 f = Some v.
Proof.
  intros Hp H. unfold exec in H.
  apply (searchFrom_inv (fun _ _ => True)) in H. destruct H as [_ [_ [Hb _]]].
  assert (B : binds 1 (expr p) = true).
  { simpl in Hp. repeat (destruct Hp as [<-|Hp]; [reflexivity|]). destruct Hp. }
  unfold group. destruct (capture 1 (groups f)) as [v|] eqn:E; [now exists v|].
  exfalso. exact (Hb 1 B E).
Qed.

(** The matcher finds a match wherever the language has one: if a prefix
    of the input is in the language of the expression and the continuation
    accepts what follows it, the matcher succeeds (possibly on another
    split of the input). *)
Lemma run_complete {A} (ci : bool) (r : re) (a : str) :
  lang ci r a ->
  forall (k : str -> caps -> option A) (s' : str),
    (forall c', exists x, k s' c' = Some x) ->
    (forall c, exists x, run ci r k (a ++ s') c = Some x) /\
    match r with
    | Star g r1 =>
        forall n c, length (a ++ s') <= n ->
                    exists x, starLoop ci g r1 k n (a ++ s') c = Some x
    | _ => True
    end.
Proof.
  induction 1 as [|p x Hx|r1 r2 a b H1 IH1 H2 IH2|r1 r2 a H1 IH1|r1 r2 a H2 IH2
                 |g r1|g r1 a b H1 IH1 H2 IH2|i r1 a H1 IH1];
    intros k s' Hk.
  - split; [|exact I]. intros c. apply Hk.
  - split; [|exact I]. intros c. cbn [run app]. rewrite Hx. apply Hk.
  - split; [|exact I]. intros c. cbn [run]. rewrite <- app_assoc.
    apply (IH1 (fun s1 c1 => run ci r2 k s1 c1) (b ++ s')).
    intros c'. apply (IH2 k s' Hk).
  - split; [|exact I]. intros c. cbn [run].
    destruct (proj1 (IH1 k s' Hk) c) as [y Hy]. rewrite Hy. eauto.
  - split; [|exact I]. intros c. cbn [run].
    destruct (run ci r1 k (a ++ s') c) as [y|]; [eauto|].
    apply (IH2 k s' Hk).
  - assert (Hloop : forall n c, exists x, starLoop ci g r1 k n ([] ++ s') c = Some x).
    { intros n c. destruct (Hk c) as [y Hy]. cbn [app].
      destruct n as [|n]; cbn [starLoop]; destruct g; rewrite ?Hy; eauto.
      match goal with |- exists x, match ?t with _ => _ end = _ => destruct t end; eauto. }
    split; [intros c; apply (Hloop (length ([] ++ s')) c) | intros n c _; apply Hloop].
  - assert (Hloop : forall n c, length ((a ++ b) ++ s') <= n ->
                                exists x, starLoop ci g r1 k n ((a ++ b) ++ s') c = Some x).
    { intros n c Hn. destruct a as [|x0 a].
      - cbn [app]. exact (proj2 (IH2 k s' Hk) n c Hn).
      - destruct n as [|n]; [simpl in Hn; lia|].
        assert (Hagain : exists y,
                  run ci r1
                    (fun s1 c1 =>
                       if length s1 <? length (((x0 :: a) ++ b) ++ s')
                       then starLoop ci g r1 k n s1 c1 else None)
                    (((x0 :: a) ++ b) ++ s') c = Some y).
        { rewrite <- app_assoc.
          apply (IH1 (fun s1 c1 =>
                        if length s1 <? length ((x0 :: a) ++ b ++ s')
                        then starLoop ci g r1 k n s1 c1 else None) (b ++ s')).
          intros c'.
          replace (length (b ++ s') <? length ((x0 :: a) ++ b ++ s')) with true
            by (symmetry; apply Nat.ltb_lt; rewrite !length_app; simpl; lia).
          apply (proj2 (IH2 k s' Hk)).
          rewrite <- app_assoc, !length_app in Hn. simpl in Hn.
          rewrite length_app. lia. }
        destruct Hagain as [y Hy].
        change (starLoop ci g r1 k (S n) (((x0 :: a) ++ b) ++ s') c)
          with (let again :=
                  run ci r1
                    (fun s1 c1 =>
                       if length s1 <? length (((x0 :: a) ++ b) ++ s')
                       then starLoop ci g r1 k n s1 c1 else None)
                    (((x0 :: a) ++ b) ++ s') c in
                if g
                then match again with Some x => Some x | None => k (((x0 :: a) ++ b) ++ s') c end
                else match k (((x0 :: a) ++ b) ++ s') c with
                     | Some x => Some x
                     | None => again
                     end).
        cbv zeta. rewrite Hy. destruct g; [eauto|].
        destruct (k (((x0 :: a) ++ b) ++ s') c); eauto. }
    split; [intros c; apply (Hloop (length ((a ++ b) ++ s')) c); lia | exact Hloop].
  - split; [|exact I]. intros c. cbn [run].
    apply (IH1 (fun s1 c1 => k s1 ((i, firstn (length (a ++ s') - length s1) (a ++ s')) :: c1)) s').
    intros c'. apply Hk.
Qed.

Lemma matchHere_split (p : pattern) (s rest : str) (c : caps) :
  matchHere p s = Some (rest, c) ->
  s = firstn (length s - length rest) s ++ rest.
Proof.
  unfold matchHere. intros E. apply (run_inv _ (fun _ _ => True)) in E.
  destruct E as [pre [s' [ext [-> [_ [Hk _]]]]]].
  injection Hk as <- _. now rewrite firstn_consumed.
Qed.

Lemma searchFrom_split (p : pattern) (s : str) :
  forall i f, searchFrom p s i = Some f -> exists pre, s = pre ++ matched f ++ after f.
Proof.
  induction s as [|a s IH]; intros i f H; cbn [searchFrom] in H.
  - destruct (matchHere p []) as [[rest c]|] eqn:E; [|discriminate].
    injection H as <-. exists []. exact (matchHere_split _ _ _ _ E).
  - destruct (matchHere p (a :: s)) as [[rest c]|] eqn:E.
    + injection H as <-. exists []. exact (matchHere_split _ _ _ _ E).
    + apply IH in H. destruct H as [pre ->]. now exists (a :: pre).
Qed.

Lemma searchFrom_complete (p : pattern) (m post : str) :
  lang (ignoreCase p) (expr p) m ->
  forall pre i, exists f, searchFrom p (pre ++ m ++ post) i = Some f.
Proof.
  intros Hl.
  assert (Hhere : exists r, matchHere p (m ++ post) = Some r).
  { unfold matchHere.
    apply (proj1 (run_complete _ _ _ Hl (fun s' c' => Some (s', c')) post
                    (fun c' => ex_intro _ _ eq_refl))). }
  induction pre as [|a pre IH]; intros i.
  - destruct Hhere as [[rest c] Hr]. cbn [app].
    destruct (m ++ post) as [|y s]; cbn [searchFrom]; rewrite Hr; eauto.
  - cbn [app searchFrom].
    destruct (matchHere p (a :: pre ++ m ++ post)) as [[rest c]|]; [eauto | apply IH].
Qed.

(** The search finds a match exactly when the pattern occurs in the text. *)
Lemma exec_none_iff (p : pattern) (text : str) :
  exec p text = None <-> ~ occurs p text.
Proof.
  unfold exec. split.
  - intros H [pre [m [post [-> Hl]]]].
    destruct (searchFrom_complete p m post Hl pre 0) as [f Hf]. congruence.
  - intros H. destruct (searchFrom p text 0) as [f|] eqn:E; [|reflexivity].
    exfalso. apply H. destruct (searchFrom_split _ _ _ _ E) as [pre Hs].
    exists pre, (matched f), (after f). split; [exact Hs|].
    apply (searchFrom_inv (fun _ _ => True)) in E. apply E.
Qed.

Lemma exec_occurs (p : pattern) (text : str) :
  occurs p text -> exists f, exec p text = Some f.
Proof.
  intros H. destruct (exec p text) as [f|] eqn:E; [eauto|].
  apply exec_none_iff in E. contradiction.
Qed.

(** What the group of a pattern of [extractCelexId] captures is in the
    language of the group. *)
Lemma celex_capture_lang (p : pattern) (core : re) (text : str) (f : found) (v : str) :
  groupsIn (ignoreCase p) (fun _ a => lang (ignoreCase p) core a) (expr p) ->
  exec p text = Some f -> group 1 f = Some v -> lang (ignoreCase p) core v.
Proof.
  intros Hg H Hv. unfold exec in H.
  apply (searchFrom_inv (fun _ a => lang (ignoreCase p) core a)) in H.
  destruct H as [_ [Hc _]]. exact (Hc Hg 1 v Hv).
Qed.

Lemma celexExplicit_groups :
  groupsIn true (fun _ a => lang true celexCore a) (expr celexExplicit).
Proof. cbn. repeat split; intros a Ha; exact Ha. Qed.

Lemma celexBare_groups :
  groupsIn false (fun _ a => lang false celexCore a) (expr celexBare).
Proof. cbn. repeat split; intros a Ha; exact Ha. Qed.

Lemma celexPhrase_groups :
  groupsIn true (fun _ a => lang true yearNumber a) (expr celexPhrase).
Proof. cbn. repeat split; intros a Ha; exact Ha. Qed.

(** C7. [extractCelexId] returns the first match in priority order. If the
    explicit CELEX-prefix pattern occurs anywhere in the text, the result is
    what its group captured there, an identifier of five digits, a letter
    and four digits with an optional parenthesised suffix, whatever the
    other patterns would match and wherever; if it does not occur but the
    bare identifier does, the result is the bare identifier; if neither
    occurs but the Regulation/Directive/Decision phrasing does, the result
    is its number; and there is no id exactly when none of the three
    occurs. An explicit id wins over a bare id that stands earlier in the
    text, and a bare id over a phrasing that stands earlier. On
    CELEX:32024R1234 and on 32024R1234(01) the results share the
    nine-character prefix 32024R123. *)
Theorem extractCelexId_priority :
  (forall (x : ascii) (t : str),
     (occurs celexExplicit (x :: t) ->
      exists f v, exec celexExplicit (x :: t) = Some f /\ group 1 f = Some v /\
                  extractCelexId (Some (x :: t)) = Some v /\ lang true celexCore v) /\
     (~ occurs celexExplicit (x :: t) -> occurs celexBare (x :: t) ->
      exists f v, exec celexBare (x :: t) = Some f /\ group 1 f = Some v /\
                  extractCelexId (Some (x :: t)) = Some v /\ lang false celexCore v) /\
     (~ occurs celexExplicit (x :: t) -> ~ occurs celexBare (x :: t) ->
      occurs celexPhrase (x :: t) ->
      exists f v, exec celexPhrase (x :: t) = Some f /\ group 1 f = Some v /\
                  extractCelexId (Some (x :: t)) = Some v /\ lang true yearNumber v) /\
     (extractCelexId (Some (x :: t)) = None <->
      ~ occurs celexExplicit (x :: t) /\ ~ occurs celexBare (x :: t) /\
      ~ occurs celexPhrase (x :: t))) /\
  extractCelexId (Some (lit "CELEX:32024R1234")) = Some (lit "32024R1234") /\
  extractCelexId (Some (lit "32024R1234(01)")) = Some (lit "32024R1234(01)") /\
  slice (lit "32024R1234") 0 9 = lit "32024R123" /\
  slice (lit "32024R1234(01)") 0 9 = lit "32024R123" /\
  extractCelexId (Some (lit "see 32019L0790 and CELEX: 32024R1234")) =
    Some (lit "32024R1234") /\
  extractCelexId (Some (lit "Directive (EU) 2019/790, 32019L0790")) =
    Some (lit "32019L0790") /\
  extractCelexId (Some (lit "Decision (EU) No. 2021/1073")) = Some (lit "2021/1073") /\
  extractCelexId (Some (lit "no identifier here")) = None.
Proof.
  split; [|repeat split; vm_compute; reflexivity].
  intros x t.
  assert (He : In celexExplicit celexPatterns) by (left; reflexivity).
  assert (Hb : In celexBare celexPatterns) by (right; left; reflexivity).
  assert (Hp : In celexPhrase celexPatterns) by (right; right; left; reflexivity).
  unfold extractCelexId, celexPatterns. cbn [firstMatch].
  split; [|split; [|split]].
  - intros Ho. destruct (exec_occurs _ _ Ho) as [f H]. rewrite H.
    destruct (celex_match_captures _ _ _ He H) as [v Hv].
    exists f, v. rewrite Hv. repeat split.
    exact (celex_capture_lang celexExplicit celexCore _ f v celexExplicit_groups H Hv).
  - intros H1 Ho. apply exec_none_iff in H1. rewrite H1.
    destruct (exec_occurs _ _ Ho) as [f H]. rewrite H.
    destruct (celex_match_captures _ _ _ Hb H) as [v Hv].
    exists f, v. rewrite Hv. repeat split.
    exact (celex_capture_lang celexBare celexCore _ f v celexBare_groups H Hv).
  - intros H1 H2 Ho. apply exec_none_iff in H1, H2. rewrite H1, H2.
    destruct (exec_occurs _ _ Ho) as [f H]. rewrite H.
    destruct (celex_match_captures _ _ _ Hp H) as [v Hv].
    exists f, v. rewrite Hv. repeat split.
    exact (celex_capture_lang celexPhrase yearNumber _ f v celexPhrase_groups H Hv).
  - rewrite <- !exec_none_iff.
    destruct (exec celexExplicit (x :: t)) as [f|] eqn:E1.
    { destruct (celex_match_captures _ _ _ He E1) as [v Hv]. rewrite Hv.
      split; [discriminate | intros [H _]; discriminate]. }
    destruct (exec celexBare (x :: t)) as [f|] eqn:E2.
    { destruct (celex_match_captures _ _ _ Hb E2) as [v Hv]. rewrite Hv.
      split; [discriminate | intros [_ [H _]]; discriminate]. }
    destruct (exec celexPhrase (x :: t)) as [f|] eqn:E3.
    { destruct (celex_match_captures _ _ _ Hp E3) as [v Hv]. rewrite Hv.
      split; [discriminate | intros [_ [_ H]]; discriminate]. }
    split; [now repeat split | reflexivity].
Qed.

(** ** The place of a match in the ranking *)

Lemma RelatedMatch_eq_dec (a b : RelatedMatch) : {a = b} + {a <> b}.
Proof. repeat decide equality. Defined.

Lemma first_occurrence (m : RelatedMatch) (l : list RelatedMatch) :
  In m l -> exists before after, l = before ++ m :: after /\ ~ In m before.
Proof.
  induction l as [|x l IH]; intros H; [destruct H|].
  destruct (RelatedMatch_eq_dec x m) as [->|Hne].
  - exists [], l. split; [reflexivity | intros []].
  - destruct H as [H|H]; [contradiction|].
    destruct (IH H) as [before [after [-> Hn]]].
    exists (x :: before), after. split; [reflexivity|].
    intros [E|E]; [contradiction | now apply Hn].
Qed.

Lemma filter_none {A} (p : A -> bool) (l : list A) :
  Forall (fun x => p x = false) l -> filter p l = [].
Proof.
  induction 1 as [|x l Hx _ IH]; [reflexivity|]. cbn [filter]. now rewrite Hx.
Qed.

Lemma filter_all {A} (p : A -> bool) (l : list A) :
  Forall (fun x => p x = true) l -> filter p l = l.
Proof.
  induction 1 as [|x l Hx _ IH]; [reflexivity|]. cbn [filter]. now rewrite Hx, IH.
Qed.

(** A ranked list splits into the entries above a score, those at the
    score and those below it, in this order. *)
Lemma sorted_partition (v : Z) (l : list RelatedMatch) :
  StronglySorted byScore l ->
  l = filter (fun x => v <? score x)%Z l ++
      filter (fun x => score x =? v)%Z l ++
      filter (fun x => score x <? v)%Z l.
Proof.
  induction 1 as [|x l Hs IH Hall]; [reflexivity|].
  cbn [filter].
  destruct (v <? score x)%Z eqn:E1.
  - replace (score x =? v)%Z with false by (symmetry; apply Z.eqb_neq; apply Z.ltb_lt in E1; lia).
    replace (score x <? v)%Z with false by (symmetry; apply Z.ltb_ge; apply Z.ltb_lt in E1; lia).
    cbn [app]. now rewrite <- IH.
  - apply Z.ltb_ge in E1.
    assert (Habove : filter (fun y => v <? score y)%Z l = []).
    { apply filter_none. eapply Forall_impl; [|exact Hall].
      unfold byScore. intros y Hy. apply Z.ltb_ge. lia. }
    rewrite Habove in *. cbn [app] in *.
    destruct (score x =? v)%Z eqn:E2.
    + apply Z.eqb_eq in E2.
      replace (score x <? v)%Z with false by (symmetry; apply Z.ltb_ge; lia).
      cbn [app]. now rewrite <- IH.
    + apply Z.eqb_neq in E2.
      replace (score x <? v)%Z with true by (symmetry; apply Z.ltb_lt; lia).
      assert (Hequal : filter (fun y => score y =? v)%Z l = []).
      { apply filter_none. eapply Forall_impl; [|exact Hall].
        unfold byScore. intros y Hy. apply Z.eqb_neq. lia. }
      rewrite Hequal in *. cbn [app] in *. now rewrite <- IH.
Qed.

Lemma filter_length_perm {A} (p : A -> bool) (l l' : list A) :
  Permutation l l' -> length (filter p l) = length (filter p l').
Proof.
  induction 1 as [|x l l' _ IH|x y l|l l' l'' _ IH1 _ IH2]; cbn [filter].
  - reflexivity.
  - destruct (p x); simpl; now rewrite IH.
  - destruct (p x), (p y); reflexivity.
  - now rewrite IH1.
Qed.

Lemma firstn_reaches {A} (m : A) (pre post : list A) (k : nat) :
  ~ In m pre -> (In m (firstn k (pre ++ m :: post)) <-> length pre < k).
Proof.
  intros Hn. split.
  - intros H. destruct (Nat.lt_ge_cases (length pre) k) as [Hlt|Hge]; [exact Hlt|].
    exfalso. apply Hn. rewrite firstn_app in H.
    replace (k - length pre) with 0 in H by lia. rewrite firstn_O, app_nil_r in H.
    exact (firstn_In _ _ _ H).
  - intros Hlt. rewrite firstn_app. apply in_or_app. right.
    destruct (k - length pre) as [|j] eqn:E; [lia|]. now left.
Qed.

Lemma slice_firstn {A} (l : list A) (n : Z) :
  (0 <= n)%Z -> slice l 0 n = firstn (Z.to_nat n) l.
Proof.
  intros Hn. unfold slice.
  replace (clampIndex (Z.of_nat (length l)) 0) with 0%Z
    by (unfold clampIndex; simpl; lia).
  unfold clampIndex. destruct (n <? 0)%Z eqn:E; [apply Z.ltb_lt in E; lia|].
  change (skipn (Z.to_nat 0) l) with l. rewrite Z.sub_0_r.
  destruct (Z.le_ge_cases n (Z.of_nat (length l))) as [H|H].
  - now rewrite Z.min_l by lia.
  - rewrite Z.min_r by lia. rewrite Nat2Z.id, firstn_all.
    symmetry. apply firstn_all2. lia.
Qed.

Section Rank.

Variable now : Z.
Variable parseDate : str -> option Z.

(** A retained candidate is returned exactly when fewer than [maxResults]
    retained candidates precede it in the ranking. *)
Lemma returned_iff_rank (t : Item) (items : list Item) (maxResults : option Z)
      (m : RelatedMatch) (before after : list RelatedMatch) :
  scoreAll now parseDate t items = before ++ m :: after ->
  ~ In m before ->
  (0 <= effectiveMaxResults maxResults)%Z ->
  (In m (findRelatedDocuments now parseDate (Some t) (Some items) maxResults) <->
   (Z.of_nat (outranking m before after) < effectiveMaxResults maxResults)%Z).
Proof.
  intros Hall Hfirst Hmax.
  unfold findRelatedDocuments. fold (effectiveMaxResults maxResults).
  destruct items as [|x items]; [destruct before; discriminate Hall|].
  rewrite (slice_firstn _ _ Hmax).
  set (all := scoreAll now parseDate t (x :: items)) in *.
  pose proof (sorted_partition (score m) _ (sortByScore_sorted all)) as Hpart.
  assert (Hequal : filter (fun x => score x =? score m)%Z (sortByScore all) =
                   filter (fun x => score x =? score m)%Z before ++
                   m :: filter (fun x => score x =? score m)%Z after).
  { rewrite sortByScore_stable, Hall, filter_app. cbn [filter].
    now rewrite Z.eqb_refl. }
  rewrite Hequal in Hpart.
  rewrite <- app_assoc in Hpart. cbn [app] in Hpart. rewrite app_assoc in Hpart.
  rewrite Hpart.
  rewrite firstn_reaches.
  - rewrite length_app.
    rewrite (filter_length_perm _ _ _ (Permutation_sym (sortByScore_perm all))).
    rewrite Hall, filter_app. cbn [filter]. rewrite Z.ltb_irrefl.
    rewrite <- filter_app. unfold outranking. lia.
  - intros H. apply in_app_or in H. destruct H as [H|H].
    + apply filter_In in H. destruct H as [_ H]. apply Z.ltb_lt in H. lia.
    + apply filter_In in H. destruct H as [H _]. contradiction.
Qed.

(** C6, as the code has it. For a target and a candidate of the corpus that
    the identity check lets through and whose instrument ids share the
    nine-character prefix, the candidate is retained with a score of at
    least 50, and its tag is same-regulation unless the amendment rule
    fires, which overrides the tag with amendment. For a non-negative
    [maxResults] its match is among the returned ones exactly when fewer
    than [maxResults] retained candidates precede it in the ranking: those
    that score more and those of the same score that stand earlier in the
    corpus. *)
Theorem same_instrument_match (t o : Item) (items : list Item) (maxResults : option Z) :
  In o items ->
  skipped t o = false ->
  falsy (celexOf t) = false -> falsy (celexOf o) = false ->
  slice (orEmpty (celexOf t)) 0 9 = slice (orEmpty (celexOf o)) 0 9 ->
  exists m,
    candidateMatch now parseDate t o = Some m /\
    item m = o /\
    (50 <= score m)%Z /\
    relationship m = (if amendmentFires t o then Amendment else SameRegulation) /\
    In m (scoreAll now parseDate t items) /\
    exists before after,
      scoreAll now parseDate t items = before ++ m :: after /\
      ~ In m before /\
      ((0 <= effectiveMaxResults maxResults)%Z ->
       (In m (findRelatedDocuments now parseDate (Some t) (Some items) maxResults) <->
        (Z.of_nat (outranking m before after) < effectiveMaxResults maxResults)%Z)).
Proof.
  intros Hin Hsk Ht Ho Hp.
  destruct (scoreCandidate_same_instrument now parseDate t o Ht Ho Hp) as [sc [Hsc H50]].
  set (rel := if amendmentFires t o then Amendment else SameRegulation) in *.
  assert (Hc : candidateMatch now parseDate t o = Some (mkMatch o sc rel)).
  { unfold candidateMatch. rewrite Hsk, Hsc.
    replace (10 <? sc)%Z with true by (symmetry; apply Z.ltb_lt; lia). reflexivity. }
  assert (Hall : In (mkMatch o sc rel) (scoreAll now parseDate t items)).
  { unfold scoreAll. apply keep_In. exists o. split; assumption. }
  exists (mkMatch o sc rel). repeat (split; [assumption || reflexivity|]).
  destruct (first_occurrence _ _ Hall) as [before [after [Hsplit Hfirst]]].
  exists before, after. split; [exact Hsplit|]. split; [exact Hfirst|].
  intros Hmax. now apply returned_iff_rank.
Qed.

End Rank.

Lemma same_instrument_match_witness :
  In sampleAmendment [sampleCorrigendum; sampleAmendment] /\
  skipped sampleTarget sampleAmendment = false /\
  falsy (celexOf sampleTarget) = false /\
  falsy (celexOf sampleAmendment) = false /\
  slice (orEmpty (celexOf sampleTarget)) 0 9 = slice (orEmpty (celexOf sampleAmendment)) 0 9 /\
  exists m,
    candidateMatch 0 (fun _ => None) sampleTarget sampleAmendment = Some m /\
    item m = sampleAmendment /\
    (50 <= score m)%Z /\
    relationship m = (if amendmentFires sampleTarget sampleAmendment
                      then Amendment else SameRegulation).
Proof.
  assert (H1 : In sampleAmendment [sampleCorrigendum; sampleAmendment])
    by (right; left; reflexivity).
  assert (H2 : skipped sampleTarget sampleAmendment = false) by (vm_compute; reflexivity).
  assert (H3 : falsy (celexOf sampleTarget) = false) by (vm_compute; reflexivity).
  assert (H4 : falsy (celexOf sampleAmendment) = false) by (vm_compute; reflexivity).
  assert (H5 : slice (orEmpty (celexOf sampleTarget)) 0 9 =
               slice (orEmpty (celexOf sampleAmendment)) 0 9) by (vm_compute; reflexivity).
  repeat (split; [assumption|]).
  destruct (same_instrument_match 0 (fun _ => None) sampleTarget sampleAmendment
              [sampleCorrigendum; sampleAmendment] (Some 5%Z) H1 H2 H3 H4 H5)
    as [m [K1 [K2 [K3 [K4 _]]]]].
  exists m. repeat split; assumption.
Defined.

(** ** The bonuses of the scorer and the acronym table *)

Section ScorerAcronyms.

Variable now : Z.
Variable parseDate : str -> option Z.

Lemma refersTo_numbers (t o : Item) : refersTo t o = numberRefersTo t o.
Proof.
  unfold refersTo, numberRefersTo.
  now rewrite (proj1 (item_references_numbers_only t)).
Qed.

Lemma amendmentFires_numbers (t o : Item) :
  amendmentFires t o = numberAmendmentFires t o.
Proof.
  unfold amendmentFires, numberAmendmentFires, numberRefersTo.
  now rewrite (proj1 (item_references_numbers_only o)).
Qed.

Lemma returned_match_computed (t : Item) (items : list Item) (maxResults : option Z)
      (m : RelatedMatch) :
  In m (findRelatedDocuments now parseDate (Some t) (Some items) maxResults) ->
  In (item m) items /\
  score m = fst (scoreCandidate now parseDate t (item m)) /\
  relationship m =
    match snd (scoreCandidate now parseDate t (item m)) with
    | Some r => r
    | None => Related
    end.
Proof.
  unfold findRelatedDocuments. destruct items as [|x items]; [intros []|].
  intros H. apply slice_prefix_In in H.
  apply (Permutation_in _ (Permutation_sym (sortByScore_perm _))) in H.
  unfold scoreAll in H. apply keep_In in H. destruct H as [o [Ho Hm]].
  unfold candidateMatch in Hm. destruct (skipped t o); [discriminate|].
  destruct (scoreCandidate now parseDate t o) as [sc rel] eqn:E.
  destruct (10 <? sc)%Z; [|discriminate]. injection Hm as <-.
  cbn [item score relationship]. rewrite E. repeat split. exact Ho.
Qed.

(** C10. Inside [findRelatedDocuments] the references are extracted from the
    lower-cased title and summary, where no acronym of the table can occur.
    The scorer's own extraction therefore yields number references only and
    never an acronym expansion, for the target and for every candidate; the
    amendment rule, the score and the relationship of every candidate are
    those of the scorer without the acronym table, in which the
    cross-reference and amendment bonuses read the references of the
    Regulation/Directive number patterns only; and so are the score and the
    relationship of every match that [findRelatedDocuments] returns. *)
Theorem scorer_references_without_acronyms (t o : Item) :
  (forall it, it = t \/ it = o ->
     extractLegalReferences (Some (itemTextOf it)) = patternReferences (itemTextOf it) /\
     (forall r, In r (extractLegalReferences (Some (itemTextOf it))) -> numberReference r) /\
     (forall acronym expansion,
        In (acronym, expansion) acronyms ->
        includes (itemTextOf it) acronym = false /\
        ~ In expansion (extractLegalReferences (Some (itemTextOf it))))) /\
  amendmentFires t o = numberAmendmentFires t o /\
  scoreCandidate now parseDate t o = numberScore now parseDate t o /\
  (forall items maxResults m,
     In m (findRelatedDocuments now parseDate (Some t) (Some items) maxResults) ->
     score m = fst (numberScore now parseDate t (item m)) /\
     relationship m =
       match snd (numberScore now parseDate t (item m)) with
       | Some r => r
       | None => Related
       end).
Proof.
  assert (Hscore : forall c, scoreCandidate now parseDate t c = numberScore now parseDate t c).
  { intros c. rewrite scoreCandidate_decomposed. unfold numberScore.
    now rewrite !refersTo_numbers, amendmentFires_numbers. }
  split; [|split; [apply amendmentFires_numbers | split; [apply Hscore|]]].
  - intros it _. destruct (item_references_numbers_only it) as [H1 [H2 [H3 _]]].
    split; [exact H1 | split; [exact H3 | exact H2]].
  - intros items maxResults m H.
    destruct (returned_match_computed t items maxResults m H) as [_ [Hs Hr]].
    rewrite Hs, Hr, Hscore. split; reflexivity.
Qed.

End ScorerAcronyms.

(** ** Failure of both channels *)

Lemma fetchViaBackend_flag (reply : BackendReply) :
  proxyFailed reply ->
  exists error, fetchViaBackend reply = failureObject error (proxyUnavailable reply).
Proof.
  intros Hf. destruct reply as [| |status body|data].
  - eexists. reflexivity.
  - eexists. reflexivity.
  - destruct body as [[| | | | | |fields]|]; eexists; reflexivity.
  - exfalso. now apply (Hf data).
Qed.

Section BothChannels.

Variable parseFromString : str -> Document.
Variable innerHTML : Node -> str.
Variable bulletMarker : str.

(** X24. When the proxy has failed in whatever way, the URL has not been
    read as a PDF (it is not of PDF shape, or its PDF could not be read or
    had no text) and the direct request throws, the result is a failure
    whose error comes from the direct channel: Request timeout when the
    request was aborted, else the message of the error, which is wrapped in
    the hint to start the backend server exactly when the proxy call ended
    in its own catch (proxy unreachable), and left as it is after a proxy
    time-out or an HTTP error of the proxy. *)
Theorem both_channels_fail (w : World) (u : str) (options : Options) (e : JsError) :
  proxyFailed (backend w) ->
  u <> [] ->
  isPdfUrl (Some u) = false \/ falsy (extractPdfText (pdfAtUrl w)) = true ->
  direct w = DirectThrows e ->
  fetchDocumentContent parseFromString innerHTML bulletMarker w (Some u) options =
    Returned (Failure
      (if str_eqb (errorName e) (lit "AbortError") then lit "Request timeout"
       else if proxyUnavailable (backend w)
            then lit "Direct fetch failed (" ++ message e ++
                 lit "). Start the backend server: python backend/server.py"
            else message e)).
Proof.
  intros Hf Hne Hpdf Hd. destruct u as [|x u]; [congruence|].
  destruct (fetchViaBackend_flag _ Hf) as [error Hv].
  unfold fetchDocumentContent. cbn [falsy]. rewrite Hv.
  destruct (failureObject_fields error (proxyUnavailable (backend w))) as [H1 [_ H3]].
  rewrite H1. cbn [bind truthy]. rewrite H3. cbn [bind orEmpty].
  assert (Hdirect : directFetch parseFromString innerHTML bulletMarker w (x :: u)
                      (match maxLength options with Some n => n | None => 100000%Z end) =
                    Raised e).
  { unfold directFetch. rewrite Hd. cbv zeta.
    destruct Hpdf as [Hp|Hp]; [rewrite Hp; reflexivity|].
    destruct (isPdfUrl _); [rewrite Hp|]; reflexivity. }
  rewrite Hdirect.
  destruct (str_eqb (errorName e) (lit "AbortError")); [reflexivity|].
  destruct (proxyUnavailable (backend w)); reflexivity.
Qed.

End BothChannels.

Lemma both_channels_fail_witness :
  proxyFailed (backend sampleRefusedWorld) /\
  lit "http://example.org/act.pdf" <> [] /\
  (isPdfUrl (Some (lit "http://example.org/act.pdf")) = false \/
   falsy (extractPdfText (pdfAtUrl sampleRefusedWorld)) = true) /\
  direct sampleRefusedWorld =
    DirectThrows (mkError (lit "TypeError") (lit "Failed to fetch")) /\
  fetchDocumentContent (fun _ => mkDocument (Text []) None) (fun _ => []) []
    sampleRefusedWorld (Some (lit "http://example.org/act.pdf")) (mkOptions None None) =
    Returned (Failure
      (if str_eqb (errorName (mkError (lit "TypeError") (lit "Failed to fetch")))
                  (lit "AbortError")
       then lit "Request timeout"
       else if proxyUnavailable (backend sampleRefusedWorld)
            then lit "Direct fetch failed (" ++
                 message (mkError (lit "TypeError") (lit "Failed to fetch")) ++
                 lit "). Start the backend server: python backend/server.py"
            else message (mkError (lit "TypeError") (lit "Failed to fetch")))).
Proof.
  assert (H1 : proxyFailed (backend sampleRefusedWorld)) by (intros data; discriminate).
  assert (H2 : lit "http://example.org/act.pdf" <> []) by discriminate.
  assert (H3 : isPdfUrl (Some (lit "http://example.org/act.pdf")) = false \/
               falsy (extractPdfText (pdfAtUrl sampleRefusedWorld)) = true)
    by (right; reflexivity).
  assert (H4 : direct sampleRefusedWorld =
               DirectThrows (mkError (lit "TypeError") (lit "Failed to fetch")))
    by reflexivity.
  split; [exact H1 | split; [exact H2 | split; [exact H3 | split; [exact H4|]]]].
  exact (both_channels_fail (fun _ => mkDocument (Text []) None) (fun _ => []) []
           sampleRefusedWorld _ (mkOptions None None) _ H1 H2 H3 H4).
Defined.
